(** * mcp-pull-buddy: the reviewer recommendation core

    A shallow embedding of [src/cache.ts] (the TTL cache), of the accessor
    functions of [src/test-client.ts] (the module the tool imports as
    [./github.js]) and of the [find-pr-buddy] tool of [src/index.ts], with
    the properties the specification states of them.

    Conventions of the embedding.
    - JavaScript strings are [string]; template literals are [+:+].
    - [Date.now()] and parsed timestamps are integers ([Z], milliseconds).
    - Counts ([totalReviews], [relatedFileChanges], ...) are [nat].
    - The numbers the ranking computes are IEEE 754 doubles ([float64]):
      every operation rounds to the nearest double, ties to even, and
      [NaN] and the infinities are values.  The number [Number.parseInt]
      returns is rounded the same way.  The average response time is an
      exact rational ([Q]).
    - A [Map<string, _>] is a [gmap string _].
    - An [async] function that may reject is a function into [outcome]; the
      ones that also touch the module-level caches are state transformers
      ([M]). *)

From Stdlib Require Import ZArith QArith Qround Qpower Lia Lqa List Ascii String
  Sorted Permutation.
From Stdlib Require Qcanon SpecFloat.
From stdpp Require Import base gmap strings pretty list fin_maps.

Local Open Scope Z_scope.

(** ** src/cache.ts *)

Module Cache.

(** [interface Cache<T> { data: T; timestamp: number }] *)
Record Cache (T : Type) : Type := mkCache { data : T; timestamp : Z }.
Arguments mkCache {T} _ _.
Arguments data {T} _.
Arguments timestamp {T} _.

(** [const CACHE_TTL = 5 * 60 * 1000] *)
Definition CACHE_TTL : Z := 5 * 60 * 1000.

(** [class CacheStore<T>]: the private map and the [ttl] fixed by the
    constructor. *)
Record CacheStore (T : Type) : Type := mkStore {
  cache : gmap string (Cache T);
  ttl : Z
}.
Arguments mkStore {T} _ _.
Arguments cache {T} _.
Arguments ttl {T} _.

(** [new CacheStore(ttl = CACHE_TTL)] *)
Definition new {T} (t : option Z) : CacheStore T :=
  mkStore ∅ (default CACHE_TTL t).

(** [get(key)], with [now] the value [Date.now()] returns during the call.
    The result is the returned value and the store after the call. *)
Definition get {T} (now : Z) (key : string) (s : CacheStore T)
  : option T * CacheStore T :=
  match cache s !! key with
  | None => (None, s)
  | Some cached =>
      if now - timestamp cached >? ttl s
      then (None, mkStore (delete key (cache s)) (ttl s))
      else (Some (data cached), s)
  end.

(** [set(key, data)], with [now] the value of [Date.now()]. *)
Definition set {T} (now : Z) (key : string) (d : T) (s : CacheStore T)
  : CacheStore T :=
  mkStore (<[key := mkCache d now]> (cache s)) (ttl s).

(** [clear()] *)
Definition clear {T} (s : CacheStore T) : CacheStore T :=
  mkStore ∅ (ttl s).

End Cache.

(** ** JavaScript numbers *)

(** A number the code computes is a binary64 value: [NaN], an infinity, or
    a finite double, given by the rational it stands for, in lowest terms.
    (The sign of zero is left out: nothing here divides by a computed zero
    or prints one.) *)
Inductive float64 : Type := FNaN | FInf (negative : bool) | Fin (q : Q).

Definition pow2 (e : Z) : Q := (2 ^ e)%Q.

(** The binary exponent of [x > 0]: the [k] with [2^k <= x < 2^(k+1)]. *)
Definition ilog2 (x : Q) : Z :=
  let l := Z.log2 (Qnum x) - Z.log2 (Z.pos (Qden x)) in
  if Qle_bool (pow2 l) x then l else l - 1.

(** The nearest integer, the even one of two that are equally near. *)
Definition rne (x : Q) : Z :=
  let f := Qfloor x in
  match (x - inject_Z f ?= 1 # 2)%Q with
  | Lt => f
  | Gt => f + 1
  | Eq => if Z.even f then f else f + 1
  end.

(** The exponent of the last place of the double nearest to [x > 0]: 53
    significant bits, and no exponent below that of the subnormals. *)
Definition ulp_exp (x : Q) : Z := Z.max (ilog2 x - 52) (-1074).

(** Rounding [x > 0] to the nearest double: to a multiple of
    [2^(ulp_exp x)], and to [Infinity] when that reaches [2^1024]. *)
Definition round_pos (x : Q) : float64 :=
  let y := (inject_Z (rne (x / pow2 (ulp_exp x))) * pow2 (ulp_exp x))%Q in
  if Qle_bool (pow2 1024) y then FInf false else Fin (Qred y).

Definition fneg (x : float64) : float64 :=
  match x with
  | FNaN => FNaN
  | FInf s => FInf (negb s)
  | Fin q => Fin (Qred (- q))
  end.

(** The double nearest to the real number [x]. *)
Definition round64 (x : Q) : float64 :=
  match (x ?= 0)%Q with
  | Eq => Fin 0
  | Gt => round_pos x
  | Lt => fneg (round_pos (- x))
  end.

(** [x + y], [x - y], [x * y] and [x / y] on numbers. *)
Definition fadd (x y : float64) : float64 :=
  match x, y with
  | FNaN, _ | _, FNaN => FNaN
  | FInf a, FInf b => if Bool.eqb a b then FInf a else FNaN
  | FInf a, Fin _ | Fin _, FInf a => FInf a
  | Fin a, Fin b => round64 (a + b)
  end.

Definition fsub (x y : float64) : float64 := fadd x (fneg y).

Definition fmul (x y : float64) : float64 :=
  match x, y with
  | FNaN, _ | _, FNaN => FNaN
  | FInf a, FInf b => FInf (xorb a b)
  | FInf a, Fin q | Fin q, FInf a =>
      match (q ?= 0)%Q with
      | Eq => FNaN
      | Lt => FInf (negb a)
      | Gt => FInf a
      end
  | Fin a, Fin b => round64 (a * b)
  end.

Definition fdiv (x y : float64) : float64 :=
  match x, y with
  | FNaN, _ | _, FNaN => FNaN
  | FInf _, FInf _ => FNaN
  | FInf a, Fin q => FInf (xorb a (Qnum q <? 0))
  | Fin _, FInf _ => Fin 0
  | Fin a, Fin b =>
      match (b ?= 0)%Q with
      | Eq => match (a ?= 0)%Q with
              | Eq => FNaN
              | Lt => FInf true
              | Gt => FInf false
              end
      | _ => round64 (a / b)
      end
  end.

(** [x <= y] and [x === y] on numbers: false as soon as one is [NaN]. *)
Definition fleb (x y : float64) : bool :=
  match x, y with
  | FNaN, _ | _, FNaN => false
  | FInf true, _ | _, FInf false => true
  | FInf false, _ | _, FInf true => false
  | Fin a, Fin b => Qle_bool a b
  end.


(** [x < y]. *)
Definition fltb (x y : float64) : bool := fleb x y && negb (fleb y x).

(** A decimal literal of the source, such as [0.3], is the double nearest
    to it; a count (an array length, a counter) is the double of that
    integer. *)
Definition literal (q : Q) : float64 := round64 q.

Definition of_nat (n : nat) : float64 := round64 (inject_Z (Z.of_nat n)).

(** ** Values of the hosting API, as far as the code reads them *)

(** [number] values that stand for a pull-request number: [NaN], a
    non-negative integer that is a double, or [Infinity]. *)
Inductive number : Type := NaN | Num (n : N) | Infinity.

(** The number value for the integer [n]: the double nearest to it, [n]
    itself up to 2^53. *)
Definition nearest_number (n : N) : number :=
  match round64 (inject_Z (Z.of_N n)) with
  | FNaN => NaN
  | FInf _ => Infinity
  | Fin q => Num (Z.to_N (Qfloor q))
  end.

(** A user object ([member], [requested_reviewers[i]], [pr.user],
    [review.user]); [name] is the field [getReviewBuddy] adds. *)
Record User : Type := mkUser { login : string; name : option string }.

(** An entry of [pulls.list] / the result of [pulls.get]. *)
Record PullRequest : Type := mkPR {
  pr_number : N;
  created_at : string;
  requested_reviewers : option (list User);
  user : User
}.

(** An entry of [pulls.listReviews]. *)
Record Review : Type := mkReview {
  review_id : N;
  review_user : option User;
  submitted_at : option string
}.

(** An entry of [pulls.listFiles]. *)
Record File : Type := mkFile { filename : string }.

(** An entry of [pulls.listReviewComments]. *)
Record ApiComment : Type := mkApiComment {
  comment_id : N;
  comment_user : option User;
  comment_body : option string;
  comment_created_at : string;
  comment_path : string;
  comment_line : option N;
  comment_commit_id : string
}.

(** An entry of [repos.listForOrg]. *)
Record Repo : Type := mkRepo { repo_name : string }.

(** What a rejected promise carries. *)
Inductive Error : Type :=
| TokenNotSet          (* Error("GITHUB_TOKEN is not set") *)
| InvalidUrl           (* Error("Invalid pull request URL") *)
| NotFound             (* the API answers 404 *)
| RateLimited
| Unauthorized.

(** The result of awaiting a promise: it resolved with a value or it
    rejected. *)
Inductive outcome (A : Type) : Type :=
| Return (a : A)
| Throw (e : Error).
Arguments Return {A} _.
Arguments Throw {A} _.

Definition obind {A B} (x : outcome A) (f : A -> outcome B) : outcome B :=
  match x with
  | Return a => f a
  | Throw e => Throw e
  end.

(** The two ways the code calls [pulls.list]: with the defaults
    ([getPullRequestByOwner]) and with
    [state: "all", sort: "updated", direction: "desc", per_page: 100]. *)
Inductive ListOptions : Type := Defaults | AllByUpdatedDesc100.

(** [octokit.rest]: the answers of the hosting API during one call. *)
Record Octokit : Type := mkOctokit {
  repos_listForOrg : string -> outcome (list Repo);
  pulls_list : string -> string -> ListOptions -> outcome (list PullRequest);
  pulls_get : string -> string -> number -> outcome PullRequest;
  pulls_listFiles : string -> string -> number -> outcome (list File);
  pulls_listReviews : string -> string -> N -> outcome (list Review);
  pulls_listReviewComments :
    string -> string -> N -> N -> outcome (list ApiComment)
}.

(** What the code reads of its surroundings: [process.env.GITHUB_TOKEN], the
    hosting API, [Date.now()] (its value at the n-th call) and
    [new Date(s).getTime()]. *)
Record Env : Type := mkEnv {
  GITHUB_TOKEN : option string;
  rest : Octokit;
  Date_now : nat -> Z;
  Date_getTime : string -> Z
}.

(** [getOctokit()]: throws when the token is unset or empty. *)
Definition getOctokit (env : Env) : outcome Octokit :=
  match GITHUB_TOKEN env with
  | None => Throw TokenNotSet
  | Some tok => if (tok =? "")%string then Throw TokenNotSet
                else Return (rest env)
  end.

(** ** Regular expressions, as [String.prototype.match] runs them

    The fragment the source's pattern is written in: literal characters,
    character classes, sequencing, the greedy [?], the greedy [+] of a
    character class, and capture groups.  Matching is by backtracking with
    JavaScript's priorities: a greedy quantifier first tries to take more. *)

Inductive regex : Type :=
| Chr (c : ascii)                 (* a literal character, escaped or not *)
| Class (p : ascii -> bool)       (* one character of a class *)
| Seq (r1 r2 : regex)
| Opt (r : regex)                 (* r? *)
| Plus (p : ascii -> bool)        (* [class]+ *)
| Group (r : regex).              (* ( r ) *)

(** The text a group took: what lies between where it started ([s]) and
    where it stopped ([s'], a suffix of [s]). *)
Definition consumed (s s' : string) : string :=
  substring 0 (String.length s - String.length s') s.

(** [class+] from [s] on: at least one character of the class, then as many
    more as the continuation allows, the longest first. *)
Fixpoint plus_loop {X} (p : ascii -> bool) (s : string)
         (k : string -> option X) : option X :=
  match s with
  | String c s' =>
      if p c then
        match plus_loop p s' k with
        | Some x => Some x
        | None => k s'
        end
      else None
  | EmptyString => None
  end.

(** [exec r s caps k]: match [r] at the head of [s]; [caps] are the groups
    closed so far, in closing order; [k] matches what follows. *)
Fixpoint exec {X} (r : regex) (s : string) (caps : list string)
         (k : string -> list string -> option X) : option X :=
  match r with
  | Chr c =>
      match s with
      | String c' s' => if Ascii.eqb c c' then k s' caps else None
      | EmptyString => None
      end
  | Class p =>
      match s with
      | String c' s' => if p c' then k s' caps else None
      | EmptyString => None
      end
  | Seq r1 r2 => exec r1 s caps (fun s1 caps1 => exec r2 s1 caps1 k)
  | Opt r1 =>
      match exec r1 s caps k with
      | Some x => Some x
      | None => k s caps
      end
  | Plus p => plus_loop p s (fun s' => k s' caps)
  | Group r1 =>
      exec r1 s caps (fun s' caps' => k s' (caps' ++ [consumed s s']))
  end.

(** A match at the head of [s]: the groups [match[1], match[2], ...]. *)
Definition match_here (r : regex) (s : string) : option (list string) :=
  exec r s [] (fun _ caps => Some caps).

(** [s.match(r)] for a pattern without the [g] flag: the match at the
    leftmost position that has one, or [null]. *)
Fixpoint str_match (r : regex) (s : string) : option (list string) :=
  match match_here r s with
  | Some caps => Some caps
  | None =>
      match s with
      | String _ s' => str_match r s'
      | EmptyString => None
      end
  end.

(** A literal run of characters. *)
Fixpoint lit (s : string) (r : regex) : regex :=
  match s with
  | String c s' => Seq (Chr c) (lit s' r)
  | EmptyString => r
  end.

Definition is_slash (c : ascii) : bool := Ascii.eqb c "/".
Definition not_slash (c : ascii) : bool := negb (is_slash c).   (* [^\/] *)
Definition is_digit (c : ascii) : bool :=                        (* \d *)
  ((48 <=? N_of_ascii c) && (N_of_ascii c <=? 57))%N.

(** [/https?:\/\/github\.com\/([^\/]+)\/([^\/]+)\/pull\/(\d+)/], in two
    pieces: what follows the scheme, and the whole. *)
Definition pr_regex_path : regex :=
  lit "://github.com/" (Seq (Group (Plus not_slash))
  (lit "/" (Seq (Group (Plus not_slash))
  (lit "/pull/" (Group (Plus is_digit)))))).

Definition pr_regex : regex :=
  lit "http" (Seq (Opt (Chr "s")) pr_regex_path).

(** [Number.parseInt(s, 10)] on a string that starts with a digit or with
    anything that is neither white space nor a sign: the number value for
    the integer the leading digits write, [NaN] when there are none.  (The
    standard lets an engine replace the digits after the 20th by zeros
    before it rounds; V8, as here, rounds the integer itself.) *)
Fixpoint parse_digits (acc : N) (s : string) : N :=
  match s with
  | String c s' =>
      if is_digit c then parse_digits (10 * acc + (N_of_ascii c - 48))%N s'
      else acc
  | EmptyString => acc
  end.

Definition parseInt10 (s : string) : number :=
  match s with
  | String c _ => if is_digit c then nearest_number (parse_digits 0 s) else NaN
  | EmptyString => NaN
  end.

(** [PullRequestParams] without its [null]. *)
Record PullRequestParams : Type := mkParams {
  owner : string;
  repo : string;
  pullNumber : number
}.

(** [parsePullRequestUrl(url)]; [None] is [null]. *)
Definition parsePullRequestUrl (url : string) : option PullRequestParams :=
  match str_match pr_regex url with
  | None => None
  | Some m =>
      Some {| owner := nth 0 m ""%string;
              repo := nth 1 m ""%string;
              pullNumber := parseInt10 (nth 2 m ""%string) |}
  end.

(** The shape the pattern describes, stated on the text: a scheme, the
    host, two non-empty segments without a slash, [/pull/] and a non-empty
    run of digits. *)
Fixpoint all_chars (p : ascii -> bool) (s : string) : bool :=
  match s with
  | String c s' => p c && all_chars p s'
  | EmptyString => true
  end.

Definition segment (s : string) : Prop :=
  s <> ""%string /\ all_chars not_slash s = true.
Definition numeral (s : string) : Prop :=
  s <> ""%string /\ all_chars is_digit s = true.

(** [rest] does not start with a character of the class [p]. *)
Definition stops (p : ascii -> bool) (rest : string) : Prop :=
  match rest with
  | String c _ => p c = false
  | EmptyString => True
  end.
Definition scheme (s : string) : Prop := s = "http"%string \/ s = "https"%string.

(** [rest] does not go on with a digit: the numeral before it is maximal. *)
Definition no_digit_ahead (rest : string) : Prop := stops is_digit rest.

Definition pr_url (sch o r d : string) : string :=
  sch +:+ "://github.com/" +:+ o +:+ "/" +:+ r +:+ "/pull/" +:+ d.

(** [s] starts with a pull-request URL of owner [o], repository [r] and
    numeral [d]. *)
Definition pr_url_here (s o r d : string) : Prop :=
  exists sch rest,
    s = pr_url sch o r d +:+ rest /\
    scheme sch /\ segment o /\ segment r /\ numeral d /\ no_digit_ahead rest.

(** The same with the scheme [https] only, as the specification writes the
    URL. *)
Definition https_url_here (s o r d : string) : Prop :=
  exists rest,
    s = pr_url "https" o r d +:+ rest /\
    segment o /\ segment r /\ numeral d /\ no_digit_ahead rest.

(** [s = pre ++ t] and no pull-request URL (resp. no [https] one) starts
    in [s] before [t] does. *)
Definition first_pr_url (pre t : string) : Prop :=
  forall p1 p2 o r d,
    pre = p1 +:+ p2 -> p2 <> ""%string -> ~ pr_url_here (p2 +:+ t) o r d.

Definition first_https_url (pre t : string) : Prop :=
  forall p1 p2 o r d,
    pre = p1 +:+ p2 -> p2 <> ""%string -> ~ https_url_here (p2 +:+ t) o r d.

Definition contains_pr_url (s : string) : Prop :=
  exists pre t o r d, s = pre +:+ t /\ pr_url_here t o r d.

(** Executable versions of the two "first" conditions, for concrete texts:
    the pattern matches at no earlier position, resp. [https://github.com/]
    starts at no earlier position. *)
Fixpoint no_match_before (pre t : string) : bool :=
  match pre with
  | String _ pre' =>
      match match_here pr_regex (pre +:+ t) with
      | None => no_match_before pre' t
      | Some _ => false
      end
  | EmptyString => true
  end.

Fixpoint no_https_before (pre t : string) : bool :=
  match pre with
  | String _ pre' =>
      negb (String.prefix "https://github.com/" (pre +:+ t))
      && no_https_before pre' t
  | EmptyString => true
  end.

(** ** src/test-client.ts: [getPullRequestByOwner]

    The function declares two arrays under the one name [pullRequests]: the
    result, and inside the loop body the [data] of each response.  Arrays
    are objects, so they live in a store and variables hold references. *)

Abbreviation ref := nat (only parsing).

Record Heap : Type := mkHeap {
  cells : gmap ref (list PullRequest);
  fresh : ref
}.

Definition heap_empty : Heap := mkHeap ∅ 0%nat.

(** A new array object holding [l]. *)
Definition alloc (l : list PullRequest) (h : Heap) : ref * Heap :=
  (fresh h, mkHeap (<[fresh h := l]> (cells h)) (S (fresh h))).

Definition deref (a : ref) (h : Heap) : list PullRequest :=
  default [] (cells h !! a).

(** [a.push(...items)]: in-place append to the array [a] refers to. *)
Definition push (a : ref) (items : list PullRequest) (h : Heap) : Heap :=
  mkHeap (<[a := deref a h ++ items]> (cells h)) (fresh h).

(** The body of [for (const repo of repos)]: the [const { data:
    pullRequests }] of the block shadows the outer [pullRequests], so the
    receiver and the argument of [push] are both the response's array
    ([inner]); the outer one is not in scope here. *)
Definition getPullRequestByOwner_body (octokit : Octokit) (owner : string)
    (repo : Repo) (h : Heap) : outcome Heap :=
  obind (pulls_list octokit owner (repo_name repo) Defaults) (fun data =>
  let '(inner, h1) := alloc data h in
  Return (push inner (deref inner h1) h1)).

Fixpoint getPullRequestByOwner_loop (octokit : Octokit) (owner : string)
    (repos : list Repo) (h : Heap) : outcome Heap :=
  match repos with
  | [] => Return h
  | repo :: repos' =>
      obind (getPullRequestByOwner_body octokit owner repo h)
            (getPullRequestByOwner_loop octokit owner repos')
  end.

Definition getPullRequestByOwner (env : Env) (owner : string)
  : outcome (list PullRequest) :=
  obind (getOctokit env) (fun octokit =>
  let '(pullRequests, h0) := alloc [] heap_empty in
  obind (repos_listForOrg octokit owner) (fun repos =>
  obind (getPullRequestByOwner_loop octokit owner repos h0) (fun h =>
  Return (deref pullRequests h)))).

(** The concatenation the specification describes: the pull requests of
    every listed repository, one repository after the other. *)
Fixpoint concat_pulls (octokit : Octokit) (owner : string)
    (repos : list Repo) : outcome (list PullRequest) :=
  match repos with
  | [] => Return []
  | repo :: repos' =>
      obind (pulls_list octokit owner (repo_name repo) Defaults) (fun data =>
      obind (concat_pulls octokit owner repos') (fun more =>
      Return (data ++ more)))
  end.

(** ** src/test-client.ts: [getPullRequestDetails] *)

Record PullRequestDetails : Type := mkDetails {
  pr : PullRequest;
  files : list File;
  reviewers : list User
}.

(** [params] is [None] for [null].  [pulls.get] is awaited before the [try]
    block; only [pulls.listFiles] is inside it, and the [catch] returns
    [null]. *)
Definition getPullRequestDetails (env : Env) (params : option PullRequestParams)
  : outcome (option PullRequestDetails) :=
  obind (getOctokit env) (fun octokit =>
  match params with
  | None => Throw InvalidUrl
  | Some p =>
      obind (pulls_get octokit (owner p) (repo p) (pullNumber p)) (fun pr_ =>
      match pulls_listFiles octokit (owner p) (repo p) (pullNumber p) with
      | Return files_ =>
          Return (Some {| pr := pr_;
                          files := files_;
                          reviewers := default [] (requested_reviewers pr_) |})
      | Throw _ => Return None
      end)
  end).

(** ** src/test-client.ts: the module-level caches and the functions on them *)

(** [pullRequestsCache], [reviewsCache], [filesCache], and the number of
    calls of [Date.now()] made so far. *)
Record State : Type := mkState {
  pullRequestsCache : Cache.CacheStore (list PullRequest);
  reviewsCache : Cache.CacheStore (list Review);
  filesCache : Cache.CacheStore (list File);
  clock : nat
}.

(** An [async] function over the caches. *)
Definition M (A : Type) : Type := State -> outcome A * State.

Definition ret {A} (a : A) : M A := fun st => (Return a, st).

Definition bind {A B} (m : M A) (f : A -> M B) : M B :=
  fun st =>
    match m st with
    | (Return a, st') => f a st'
    | (Throw e, st') => (Throw e, st')
    end.

Declare Scope m_scope.
Delimit Scope m_scope with M.
Notation "x <- m ;; k" := (bind m (fun x => k))
  (at level 100, m at next level, right associativity) : m_scope.

(** Awaiting a call of the hosting API. *)
Definition await {A} (o : outcome A) : M A := fun st => (o, st).

Definition tick (st : State) : State :=
  mkState (pullRequestsCache st) (reviewsCache st) (filesCache st)
          (S (clock st)).

(** [for (const x of l) { ... }] with the variables the body assigns
    gathered in [acc]. *)
Fixpoint for_of {A S} (l : list A) (body : A -> S -> M S) (acc : S) : M S :=
  match l with
  | [] => ret acc
  | x :: l' => bind (body x acc) (for_of l' body)
  end.

(** One of the three caches, as a field of [State]. *)
Record CacheRef (T : Type) : Type := mkCacheRef {
  view : State -> Cache.CacheStore T;
  update : Cache.CacheStore T -> State -> State
}.
Arguments view {T} _ _.
Arguments update {T} _ _ _.

Definition pullRequestsCacheRef : CacheRef (list PullRequest) :=
  mkCacheRef _ pullRequestsCache
    (fun c st => mkState c (reviewsCache st) (filesCache st) (clock st)).
Definition reviewsCacheRef : CacheRef (list Review) :=
  mkCacheRef _ reviewsCache
    (fun c st => mkState (pullRequestsCache st) c (filesCache st) (clock st)).
Definition filesCacheRef : CacheRef (list File) :=
  mkCacheRef _ filesCache
    (fun c st => mkState (pullRequestsCache st) (reviewsCache st) c (clock st)).

Section Accessors.
Variable env : Env.

(** [c.get(key)]; [Date.now()] is called only past the [if (!cached)]. *)
Definition cacheGet {T} (c : CacheRef T) (key : string) : M (option T) :=
  fun st =>
    match Cache.cache (view c st) !! key with
    | None => (Return None, st)
    | Some _ =>
        let '(r, c') := Cache.get (Date_now env (clock st)) key (view c st) in
        (Return r, tick (update c c' st))
    end.

(** [c.set(key, data)] *)
Definition cacheSet {T} (c : CacheRef T) (key : string) (d : T) : M unit :=
  fun st =>
    (Return tt,
     tick (update c (Cache.set (Date_now env (clock st)) key d (view c st)) st)).

(** The read-through the source writes out at each use:
    [let x = c.get(key); if (!x) { const { data } = await fetch; x = data;
    c.set(key, data); }].  The cached values are arrays, which are never
    falsy, so [!x] holds for [null] only. *)
Definition cached {T} (c : CacheRef T) (key : string) (fetch : outcome T)
  : M T :=
  (hit <- cacheGet c key ;;
   match hit with
   | Some x => ret x
   | None =>
       data_ <- await fetch ;;
       _ <- cacheSet c key data_ ;;
       ret data_
   end)%M.

(** [`${n}`] for a pull-request number: the decimal digits of an integer.
    (That is what JavaScript prints up to 2^53, where every integer is a
    double; for a larger double it prints the shortest digits that read
    back as the same double, then zeros or an exponent.) *)
Definition toString (n : number) : string :=
  match n with
  | NaN => "NaN"
  | Num k => pretty k
  | Infinity => "Infinity"
  end.

Definition getPRCacheKey (owner repo : string) : string :=
  "pr:" +:+ owner +:+ ":" +:+ repo.

Definition getReviewsCacheKey (owner repo : string) (prNumber : number)
  : string :=
  "review:" +:+ owner +:+ ":" +:+ repo +:+ ":" +:+ toString prNumber.

Definition getFilesCacheKey (owner repo : string) (prNumber : number)
  : string :=
  "files:" +:+ owner +:+ ":" +:+ repo +:+ ":" +:+ toString prNumber.

(** [review.user?.login === reviewer] *)
Definition reviewed_by (reviewer : string) (review : Review) : bool :=
  match review_user review with
  | Some u => (login u =? reviewer)%string
  | None => false
  end.

(** The cached pull-request list of a repository (both functions below
    start with it). *)
Definition fetchPullRequests (octokit : Octokit) (owner repo : string)
  : M (list PullRequest) :=
  cached pullRequestsCacheRef (getPRCacheKey owner repo)
         (pulls_list octokit owner repo AllByUpdatedDesc100).

Definition fetchReviews (octokit : Octokit) (owner repo : string) (n : N)
  : M (list Review) :=
  cached reviewsCacheRef (getReviewsCacheKey owner repo (Num n))
         (pulls_listReviews octokit owner repo n).

Definition fetchFiles (octokit : Octokit) (owner repo : string) (n : number)
  : M (list File) :=
  cached filesCacheRef (getFilesCacheKey owner repo n)
         (pulls_listFiles octokit owner repo n).

End Accessors.

(** [ReviewComment] *)
Record ReviewComment : Type := mkReviewComment {
  id : N;
  prNumber : N;
  author : string;
  body : string;
  createdAt : string;
  path : string;
  line : option N;
  commitId : string
}.

(** An entry of [ReviewHistory.reviews]. *)
Record ReviewEntry : Type := mkReviewEntry {
  entry_prNumber : N;
  submittedAt : string;
  comments : list ReviewComment
}.

(** [ReviewHistory.stats] *)
Record Stats : Type := mkStats {
  totalReviews : nat;
  totalComments : nat;
  averageResponseTime : Q;
  lastReviewAt : string;
  relatedFileChanges : nat
}.

Record ReviewHistory : Type := mkHistory {
  reviewer : User;
  reviews : list ReviewEntry;
  stats : Stats
}.

(** The variables the loops of [getReviewHistory] assign. *)
Record Acc : Type := mkAcc {
  acc_reviews : list ReviewEntry;
  acc_totalComments : nat;
  acc_totalResponseTime : Z;
  acc_lastReviewAt : string
}.

Definition acc_init : Acc := mkAcc [] 0%nat 0 "".

(** A string used as a condition. *)
Definition truthy (s : string) : bool := negb (s =? "")%string.

Section Aggregation.
Variable env : Env.

(** [comments.map((comment) => ({ ... }))] *)
Definition formatComment (p : PullRequest) (c : ApiComment) : ReviewComment :=
  {| id := comment_id c;
     prNumber := pr_number p;
     author := match comment_user c with Some u => login u | None => "" end;
     body := default ""%string (comment_body c);
     createdAt := comment_created_at c;
     path := comment_path c;
     line := comment_line c;
     commitId := comment_commit_id c |}.

(** [new Date(review.submitted_at ?? pr.created_at).getTime()
     - new Date(pr.created_at).getTime()] *)
Definition responseTime (p : PullRequest) (review : Review) : Z :=
  Date_getTime env (match submitted_at review with
                    | Some s => s
                    | None => created_at p
                    end)
  - Date_getTime env (created_at p).

(** The update of [lastReviewAt]: [if (!lastReviewAt ||
    (review.submitted_at && review.submitted_at > lastReviewAt))
    lastReviewAt = review.submitted_at ?? lastReviewAt]. *)
Definition updateLastReviewAt (review : Review) (last : string) : string :=
  let newer :=
    match submitted_at review with
    | Some s => truthy s && String.ltb last s
    | None => false
    end in
  if negb (truthy last) || newer
  then match submitted_at review with Some s => s | None => last end
  else last.

(** The body of [for (const review of reviewerReviews)]. *)
Definition getReviewHistory_review (octokit : Octokit) (owner repo : string)
    (p : PullRequest) (review : Review) (a : Acc) : M Acc :=
  (comments_ <- await (pulls_listReviewComments octokit owner repo
                         (pr_number p) (review_id review)) ;;
   let formattedComments := map (formatComment p) comments_ in
   ret {| acc_reviews :=
            acc_reviews a ++
            [ {| entry_prNumber := pr_number p;
                 submittedAt := default ""%string (submitted_at review);
                 comments := formattedComments |} ];
          acc_totalComments :=
            (acc_totalComments a + List.length formattedComments)%nat;
          acc_totalResponseTime :=
            acc_totalResponseTime a + responseTime p review;
          acc_lastReviewAt := updateLastReviewAt review (acc_lastReviewAt a)
       |})%M.

(** The body of [for (const pr of pullRequests)]. *)
Definition getReviewHistory_pr (octokit : Octokit) (owner repo reviewer_ : string)
    (since : Z) (p : PullRequest) (a : Acc) : M Acc :=
  if Date_getTime env (created_at p) <? since then ret a   (* continue *)
  else
    (prReviews <- fetchReviews env octokit owner repo (pr_number p) ;;
     let reviewerReviews := List.filter (reviewed_by reviewer_) prReviews in
     for_of reviewerReviews (getReviewHistory_review octokit owner repo p) a)%M.

(** [getReviewHistory(owner, repo, reviewer, since)]; [since = None] takes
    the default, [new Date(Date.now() - 30 * 24 * 60 * 60 * 1000)], which
    is evaluated on entry. *)
Definition getReviewHistory (owner repo reviewer_ : string) (since : option Z)
  : M ReviewHistory :=
  (since_ <- match since with
             | Some d => ret d
             | None => fun st =>
                 (Return (Date_now env (clock st) - 30 * 24 * 60 * 60 * 1000),
                  tick st)
             end ;;
   octokit <- await (getOctokit env) ;;
   pullRequests <- fetchPullRequests env octokit owner repo ;;
   a <- for_of pullRequests
          (getReviewHistory_pr octokit owner repo reviewer_ since_) acc_init ;;
   let n := List.length (acc_reviews a) in
   ret {| reviewer := {| login := reviewer_; name := None |};
          reviews := acc_reviews a;
          stats :=
            {| totalReviews := n;
               totalComments := acc_totalComments a;
               averageResponseTime :=
                 if (0 <? n)%nat
                 then (inject_Z (acc_totalResponseTime a)
                       / inject_Z (Z.of_nat n))%Q
                 else 0%Q;
               lastReviewAt := acc_lastReviewAt a;
               relatedFileChanges := 0 |} |})%M.

(** The body of the loop of [calculateRelatedFileExperience];
    [currentFiles] is the [Set] of the target's file names. *)
Definition calculateRelatedFileExperience_pr (octokit : Octokit)
    (owner repo reviewer_ : string) (currentFiles : gset string)
    (p : PullRequest) (relatedChanges : nat) : M nat :=
  (prReviews <- fetchReviews env octokit owner repo (pr_number p) ;;
   let hasReviewed := existsb (reviewed_by reviewer_) prReviews in
   if hasReviewed then
     reviewFiles <- fetchFiles env octokit owner repo (Num (pr_number p)) ;;
     if existsb (fun f => bool_decide (filename f ∈ currentFiles)) reviewFiles
     then ret (S relatedChanges)
     else ret relatedChanges
   else ret relatedChanges)%M.

(** [calculateRelatedFileExperience(owner, repo, prNumber, reviewer)] *)
Definition calculateRelatedFileExperience (owner repo : string)
    (prNumber_ : number) (reviewer_ : string) : M nat :=
  (octokit <- await (getOctokit env) ;;
   prFiles <- fetchFiles env octokit owner repo prNumber_ ;;
   let currentFiles : gset string := list_to_set (map filename prFiles) in
   pullRequests <- fetchPullRequests env octokit owner repo ;;
   for_of pullRequests
     (calculateRelatedFileExperience_pr octokit owner repo reviewer_
        currentFiles) 0%nat)%M.

End Aggregation.

(** ** src/index.ts: the [find-pr-buddy] tool *)

(** The filter over [buddies]:
    [!prDetails.reviewers.some((r) => r.login === buddy.login) ||
     buddy.login !== prDetails.pr.user.login]. *)
Definition keep_buddy (prDetails : PullRequestDetails) (buddy : User) : bool :=
  negb (existsb (fun r => (login r =? login buddy)%string)
                (reviewers prDetails))
  || negb (login buddy =? login (user (pr prDetails)))%string.

(** What [reviewStates[login]] can be: a count stored under the login or,
    [reviewStates] being a plain object, a member the object inherits from
    [Object.prototype] (a function, or for [__proto__] the prototype
    itself).  A count is such a value. *)
Inductive JSValue : Type := JSNumber (n : nat) | Inherited (key : string).
Bind Scope nat_scope with JSValue.
Coercion JSNumber : nat >-> JSValue.

(** The property names every plain object inherits. *)
Definition Object_prototype : list string :=
  [ "constructor"; "hasOwnProperty"; "isPrototypeOf"; "propertyIsEnumerable";
    "toLocaleString"; "toString"; "valueOf"; "__proto__";
    "__defineGetter__"; "__defineSetter__"; "__lookupGetter__";
    "__lookupSetter__" ]%string.

(** [reviewStates[login] || 0]: the own count ([0 || 0] is [0]), else the
    inherited member, which is an object and so truthy, else [0] for
    [undefined]. *)
Definition pendingReviewsOf (reviewStates : gmap string nat) (login_ : string)
  : JSValue :=
  match reviewStates !! login_ with
  | Some n => JSNumber n
  | None =>
      if bool_decide (login_ ∈ Object_prototype) then Inherited login_
      else JSNumber 0
  end.

(** An element of [reviewerDetails]. *)
Record ReviewerDetail : Type := mkDetail {
  rd_login : string;
  rd_name : option string;
  pendingReviews : JSValue;
  rd_stats : Stats;
  recentComments : list string
}.

(** [s.slice(0, n)] on an array, for an integer [n]: a negative [n] counts
    from the end. *)
Definition slice0 {A} (n : Z) (l : list A) : list A :=
  let len := Z.of_nat (List.length l) in
  let final := if n <? 0 then Z.max (len + n) 0 else Z.min n len in
  firstn (Z.to_nat final) l.

(** What the [map] callback returns for [reviewer], given the values its two
    awaited calls produced and [reviewStates]. *)
Definition reviewerDetail (reviewStates : gmap string nat) (reviewer_ : User)
    (history : ReviewHistory) (relatedFileExperience : nat) : ReviewerDetail :=
  {| rd_login := login reviewer_;
     rd_name := name reviewer_;
     pendingReviews := pendingReviewsOf reviewStates (login reviewer_);
     rd_stats :=
       {| totalReviews := totalReviews (stats history);
          totalComments := totalComments (stats history);
          averageResponseTime := averageResponseTime (stats history);
          lastReviewAt := lastReviewAt (stats history);
          relatedFileChanges := relatedFileExperience |};
     recentComments :=
       slice0 10 (map body (flat_map comments (reviews history))) |}.

(** [reviewerDetails]: the filtered buddies, each with its history and
    related-file experience ([history], [related]: what the awaited calls
    answered for that login). *)
Definition reviewerDetails (prDetails : PullRequestDetails)
    (buddies : list User) (reviewStates : gmap string nat)
    (history : string -> ReviewHistory) (related : string -> nat)
  : list ReviewerDetail :=
  map (fun reviewer_ =>
         reviewerDetail reviewStates reviewer_
           (history (login reviewer_)) (related (login reviewer_)))
      (List.filter (keep_buddy prDetails) buddies).

(** [reviewer.pendingReviews + 1], as the number the division then reads:
    the sum of two numbers, or, with an object on the left, where [+]
    concatenates two strings (["function Object() { [native code] }1"]),
    the [NaN] that a string which is no numeral converts to. *)
Definition plus_one (v : JSValue) : float64 :=
  match v with
  | JSNumber n => fadd (of_nat n) (Fin 1)
  | Inherited _ => FNaN
  end.

(** The formula in the order the specification writes it, in exact
    arithmetic. *)
Definition score_spec (pendingReviews_ relatedFileChanges_ totalReviews_ : nat)
  : Q :=
  ((3 # 10) * (1 / (inject_Z (Z.of_nat pendingReviews_) + 1))
   + (4 # 10) * (inject_Z (Z.of_nat relatedFileChanges_) / 10)
   + (3 # 10) * (inject_Z (Z.of_nat totalReviews_) / 50))%Q.

(** [{ ...reviewer, score }] *)
Record ScoredReviewer : Type := mkScored {
  detail : ReviewerDetail;
  score : float64
}.

(** The [map] callback that scores a candidate:
    [(1 / (reviewer.pendingReviews + 1)) * 0.3
     + (reviewer.stats.relatedFileChanges / 10) * 0.4
     + (reviewer.stats.totalReviews / 50) * 0.3]. *)
Definition withScore (r : ReviewerDetail) : ScoredReviewer :=
  {| detail := r;
     score :=
       fadd
         (fadd
            (fmul (fdiv (Fin 1) (plus_one (pendingReviews r)))
                  (literal (3 # 10)))
            (fmul (fdiv (of_nat (relatedFileChanges (rd_stats r))) (Fin 10))
                  (literal (4 # 10))))
         (fmul (fdiv (of_nat (totalReviews (rd_stats r))) (Fin 50))
               (literal (3 # 10))) |}.

(** The comparator [(a, b) => b.score - a.score]. *)
Definition byScoreDesc (a b : ScoredReviewer) : float64 :=
  fsub (score b) (score a).

(** What the sort reads from a comparator's answer [v]: the first argument
    may stay in front when [v <= 0], and a [NaN] counts as [+0]. *)
Definition nonpositive (v : float64) : bool :=
  match v with
  | FNaN => true
  | FInf s => s
  | Fin q => Qle_bool q 0
  end.

(** [Array.prototype.sort(comparefn)]: a stable sort (ECMAScript 2019); the
    algorithm is the engine's, here straight insertion.  [x] goes before the
    first [y] with [comparefn(x, y) <= 0].  (When [comparefn] is not a
    consistent order, as with a [NaN] score, the standard leaves the
    resulting order to the engine: only that it is a permutation is then
    certain.) *)
Fixpoint sort_insert {A} (comparefn : A -> A -> float64) (x : A) (l : list A)
  : list A :=
  match l with
  | [] => [x]
  | y :: l' =>
      if nonpositive (comparefn x y) then x :: l
      else y :: sort_insert comparefn x l'
  end.

Fixpoint sort {A} (comparefn : A -> A -> float64) (l : list A) : list A :=
  match l with
  | [] => []
  | x :: l' => sort_insert comparefn x (sort comparefn l')
  end.

(** The Standard Library's specification of IEEE 754 arithmetic
    ([SpecFloat]), with the 53 bits and the exponent range of binary64, to
    compare [round64] and [withScore] with: the double nearest to
    [m * 2^e], a double of [SpecFloat] as a [float64], and the score
    formula on [SpecFloat]. *)
Definition binary64 (m e : Z) : SpecFloat.spec_float :=
  SpecFloat.binary_normalize 53 1024 m e false.

Definition float64_of_binary64 (f : SpecFloat.spec_float) : float64 :=
  match f with
  | SpecFloat.S754_zero _ => Fin 0
  | SpecFloat.S754_infinity s => FInf s
  | SpecFloat.S754_nan => FNaN
  | SpecFloat.S754_finite s m e =>
      Fin (Qred ((if s then -1 else 1) * inject_Z (Z.pos m) * pow2 e))
  end.

Definition same_number (x : float64) (f : SpecFloat.spec_float) : bool :=
  match x, float64_of_binary64 f with
  | FNaN, FNaN => true
  | FInf a, FInf b => Bool.eqb a b
  | Fin a, Fin b =>
      Qeq_bool a b && (Qnum a =? Qnum b) && (Z.pos (Qden a) =? Z.pos (Qden b))
  | _, _ => false
  end.

Definition binary64_score (p r t : nat) : SpecFloat.spec_float :=
  let add := SpecFloat.SFadd 53 1024 in
  let mul := SpecFloat.SFmul 53 1024 in
  let div := SpecFloat.SFdiv 53 1024 in
  let num n := binary64 (Z.of_nat n) 0 in
  add
    (add (mul (div (num 1%nat) (add (num p) (num 1%nat)))
              (div (num 3%nat) (num 10%nat)))
         (mul (div (num r) (num 10%nat)) (div (num 4%nat) (num 10%nat))))
    (mul (div (num t) (num 50%nat)) (div (num 3%nat) (num 10%nat))).

(** Values to try the two on: significands (two of them half-way between
    doubles), exponents from the least to the greatest, divisors, counts. *)
Definition sample_significands : list Z :=
  [1; 7; 9007199254740991; 9007199254740993; 9007199254740995].
Definition sample_exponents : list Z := [-1074; -1022; 0; 971].
Definition sample_divisors : list Z := [3; 10; 9007199254740991].
Definition sample_counts : list nat := [0; 1; 7; 999]%nat.

(** The sort and the slice on an already scored list. *)
Definition rank (count : Z) (scored : list ScoredReviewer)
  : list ScoredReviewer :=
  slice0 count (sort byScoreDesc scored).

(** [scoredReviewers]; [count = None] is the default [count = 10]. *)
Definition scoredReviewers (count : option Z) (details : list ReviewerDetail)
  : list ScoredReviewer :=
  rank (default 10 count) (map withScore details).

(** The logins the tool answers with. *)
Definition recommended (count : option Z) (prDetails : PullRequestDetails)
    (buddies : list User) (reviewStates : gmap string nat)
    (history : string -> ReviewHistory) (related : string -> nat)
  : list string :=
  map (fun r => rd_login (detail r))
      (scoredReviewers count
         (reviewerDetails prDetails buddies reviewStates history related)).

(** ** Sample data, for the examples below *)

Definition alice : User := mkUser "alice" (Some "Alice"%string).
Definition bob : User := mkUser "bob" None.

(** Pull request 42 of acme/widgets: written by alice, review requested
    from bob. *)
Definition pr42 : PullRequest :=
  mkPR 42 "2025-01-01T00:00:00Z" (Some [bob]) alice.

(** An organisation with the one repository [widgets], whose one open pull
    request is number 42; every other lookup is answered with 404. *)
Definition acme : Octokit :=
  {| repos_listForOrg := fun o =>
       if (o =? "acme")%string then Return [mkRepo "widgets"]
       else Throw NotFound;
     pulls_list := fun o r _ =>
       if ((o =? "acme") && (r =? "widgets"))%string then Return [pr42]
       else Throw NotFound;
     pulls_get := fun o r n =>
       match n with
       | Num 42%N =>
           if ((o =? "acme") && (r =? "widgets"))%string then Return pr42
           else Throw NotFound
       | _ => Throw NotFound
       end;
     pulls_listFiles := fun o r n =>
       match n with
       | Num 42%N => Return [mkFile "x.ts"; mkFile "y.ts"]
       | _ => Throw NotFound
       end;
     pulls_listReviews := fun _ _ _ => Return [];
     pulls_listReviewComments := fun _ _ _ _ => Return [] |}.

Definition acme_env : Env :=
  {| GITHUB_TOKEN := Some "ghp_token"%string;
     rest := acme;
     Date_now := fun n => 1000 * Z.of_nat n;
     Date_getTime := fun _ => 0 |}.

Definition no_history (l : string) : ReviewHistory :=
  {| reviewer := mkUser l None;
     reviews := [];
     stats := mkStats 0 0 0%Q "" 0 |}.

(** The histories and the related-file counts of an organisation where a
    has written 1 review, on a pull request related to the target, b has
    written 15 reviews, 2 of them on related pull requests, and nobody else
    has reviewed anything. *)
Definition ab_history (l : string) : ReviewHistory :=
  {| reviewer := mkUser l None;
     reviews := [];
     stats :=
       mkStats (if (l =? "a")%string then 1
                else if (l =? "b")%string then 15 else 0)
               0 0%Q "" 0 |}.

Definition ab_related (l : string) : nat :=
  if (l =? "a")%string then 1%nat
  else if (l =? "b")%string then 2%nat else 0%nat.

(** The repository of the specification's file-overlap example: pull
    request 1 (A) changes x.ts and y.ts; pull request 2 (B), reviewed by
    carol 90 seconds after its creation, changes y.ts and z.ts; pull request
    3, reviewed by dave without a submission time, changes w.ts. *)
Definition carol : User := mkUser "carol" None.
Definition dave : User := mkUser "dave" None.

Definition prA : PullRequest := mkPR 1 "2025-03-01T00:00:00Z" None alice.
Definition prB : PullRequest := mkPR 2 "2025-03-02T00:00:00Z" None bob.
Definition prC : PullRequest := mkPR 3 "2025-03-03T00:00:00Z" None bob.

Definition overlap_reviews (n : N) : list Review :=
  match n with
  | 2%N => [mkReview 501 (Some carol) (Some "2025-03-02T00:01:30Z"%string)]
  | 3%N => [mkReview 502 (Some dave) None]
  | _ => []
  end.

Definition overlap_files (n : number) : list File :=
  match n with
  | Num 1%N => [mkFile "x.ts"; mkFile "y.ts"]
  | Num 2%N => [mkFile "y.ts"; mkFile "z.ts"]
  | Num 3%N => [mkFile "w.ts"]
  | _ => []
  end.

Definition overlap_repo : Octokit :=
  {| repos_listForOrg := fun _ => Return [mkRepo "widgets"];
     pulls_list := fun _ _ _ => Return [prA; prB; prC];
     pulls_get := fun _ _ _ => Throw NotFound;
     pulls_listFiles := fun _ _ n => Return (overlap_files n);
     pulls_listReviews := fun _ _ n => Return (overlap_reviews n);
     pulls_listReviewComments := fun _ _ _ _ => Return [] |}.

(** [getTime()] of the timestamps above, in milliseconds from the first. *)
Definition overlap_getTime (s : string) : Z :=
  if (s =? "2025-03-01T00:00:00Z")%string then 0
  else if (s =? "2025-03-02T00:00:00Z")%string then 86400000
  else if (s =? "2025-03-02T00:01:30Z")%string then 86490000
  else if (s =? "2025-03-03T00:00:00Z")%string then 172800000
  else 0.

Definition overlap_env : Env :=
  {| GITHUB_TOKEN := Some "ghp_token"%string;
     rest := overlap_repo;
     Date_now := fun n => 200000000 + Z.of_nat n;
     Date_getTime := overlap_getTime |}.

(** ** Vocabulary of the statements *)

(** "At least as good as", [a.score >= b.score]: the order the ranking
    puts first. *)
Definition score_ge (a b : ScoredReviewer) : Prop :=
  fleb (score b) (score a) = true.







(** The bounds of the rounding error in the finite range: [2^-53] of the
    value, and [2^-1075] for the smallest values. *)
Definition u64 : Q := 1 # 9007199254740992.
Definition eta64 : Q := Eval vm_compute in Qred (pow2 (-1075)).

(** [y] is a double next to [x >= 0]. *)
Definition near (x y : Q) : Prop :=
  (0 <= y /\ x - (x * u64 + eta64) <= y <= x + (x * u64 + eta64))%Q.

(** [2^64], [2^-51] and [2^-49]. *)
Definition two64 : Q := 18446744073709551616.
Definition four_ulps : Q := 1 # 2251799813685248.
Definition score_tolerance : Q := 1 # 562949953421312.

(** The candidate [d] has [p] pending reviews, [r] related pull requests
    and [t] reviews. *)
Definition has_counts (d : ReviewerDetail) (p r t : nat) : Prop :=
  pendingReviews d = JSNumber p /\
  relatedFileChanges (rd_stats d) = r /\
  totalReviews (rd_stats d) = t.

(** The counts up to 100 000. *)
Definition small_count (n : nat) : Prop := Z.of_nat n <= 100000.

(** The caches hold, for the repository [o]/[r], only what the hosting API
    answers: every entry under a key of this repository is the API's
    answer for that key.  (The code stores nothing else in them.) *)
Definition coherent (octokit : Octokit) (o r : string) (st : State) : Prop :=
  (forall c,
      Cache.cache (pullRequestsCache st) !! getPRCacheKey o r = Some c ->
      pulls_list octokit o r AllByUpdatedDesc100 = Return (Cache.data c)) /\
  (forall n c,
      Cache.cache (reviewsCache st) !! getReviewsCacheKey o r (Num n) = Some c ->
      pulls_listReviews octokit o r n = Return (Cache.data c)) /\
  (forall n c,
      Cache.cache (filesCache st) !! getFilesCacheKey o r n = Some c ->
      pulls_listFiles octokit o r n = Return (Cache.data c)).

(** The state the module starts in: three empty caches with the default
    ttl. *)
Definition initial_state : State :=
  mkState (Cache.new None) (Cache.new None) (Cache.new None) 0.

(** [p] has a review written by [R]. *)
Definition reviewed_pr (reviewsOf : N -> list Review) (R : string)
    (p : PullRequest) : Prop :=
  exists review u,
    In review (reviewsOf (pr_number p)) /\
    review_user review = Some u /\ login u = R.

(** [p] changes a file that the pull request [target] changes too. *)
Definition shares_file (filesOf : number -> list File) (target : number)
    (p : PullRequest) : Prop :=
  exists f g,
    In f (filesOf (Num (pr_number p))) /\ In g (filesOf target) /\
    filename f = filename g.

(** The API's answers about the pull request [p] of [o]/[r]: its reviews
    are [reviewsOf], and, if [R] reviewed it, its files are [filesOf]. *)
Definition answers_for (env : Env) (o r R : string)
    (reviewsOf : N -> list Review) (filesOf : number -> list File)
    (p : PullRequest) : Prop :=
  pulls_listReviews (rest env) o r (pr_number p)
    = Return (reviewsOf (pr_number p)) /\
  (reviewed_pr reviewsOf R p ->
   pulls_listFiles (rest env) o r (Num (pr_number p))
     = Return (filesOf (Num (pr_number p)))).


(** The two together, as a test. *)
Definition related_to (reviewsOf : N -> list Review)
    (filesOf : number -> list File) (R : string) (target : number)
    (p : PullRequest) : bool :=
  existsb (reviewed_by R) (reviewsOf (pr_number p))
  && existsb (fun f =>
                existsb (fun g => (filename f =? filename g)%string)
                        (filesOf target))
             (filesOf (Num (pr_number p))).

(** The reviews [getReviewHistory] is to count: those written by [R] on
    the pull requests not created before [since], in list order. *)
Definition matched_reviews (env : Env) (reviewsOf : N -> list Review)
    (R : string) (since : Z) (prs : list PullRequest)
  : list (PullRequest * Review) :=
  flat_map
    (fun p => map (pair p) (List.filter (reviewed_by R)
                                        (reviewsOf (pr_number p))))
    (List.filter (fun p => negb (Date_getTime env (created_at p) <? since))
                 prs).



(** The cut-off [getReviewHistory] works with. *)
Definition since_of (env : Env) (since : option Z) (st : State) : Z :=
  match since with
  | Some d => d
  | None => Date_now env (clock st) - 30 * 24 * 60 * 60 * 1000
  end.

(** ** src/test-client.ts: [getReviewRequestsPerUser] and [getReviewBuddy] *)

(** [reviewStates[login] = (reviewStates[login] || 0) + 1] on the object
    used as a map from logins to counts (its own properties; a login that
    names a property of [Object.prototype] is outside this model). *)
Definition countReviewer (reviewStates : gmap string nat) (reviewer_ : User)
  : gmap string nat :=
  <[login reviewer_ :=
      (default 0%nat (reviewStates !! login reviewer_) + 1)%nat]> reviewStates.

(** The body of [for (const pullRequest of pullRequests)]. *)
Definition countRequested (reviewStates : gmap string nat) (p : PullRequest)
  : gmap string nat :=
  match requested_reviewers p with
  | Some l => fold_left countReviewer l reviewStates
  | None => reviewStates
  end.

(** [getReviewRequestsPerUser(owner)] *)
Definition getReviewRequestsPerUser (env : Env) (owner : string)
  : outcome (gmap string nat) :=
  obind (getPullRequestByOwner env owner) (fun pullRequests =>
  Return (fold_left countRequested pullRequests ∅)).

(** The two endpoints [getReviewBuddy] calls: [orgs.listMembers] and
    [users.getByUsername]. *)
Record OrgApi : Type := mkOrgApi {
  orgs_listMembers : string -> outcome (list User);
  users_getByUsername : string -> outcome User
}.

(** The callback of [members.map]: [{ ...member, name: userDetails.name }],
    or [member] itself when the lookup throws. *)
Definition withDetails (api : OrgApi) (member : User) : User :=
  match users_getByUsername api (login member) with
  | Return userDetails => {| login := login member; name := name userDetails |}
  | Throw _ => member
  end.

(** [getReviewBuddy(owner)]; the callbacks of [Promise.all] share no state
    and none of them rejects. *)
Definition getReviewBuddy (env : Env) (api : OrgApi) (owner : string)
  : outcome (list User) :=
  obind (getOctokit env) (fun _ =>
  obind (orgs_listMembers api owner) (fun members =>
  Return (map (withDetails api) members))).

(** ** src/index.ts: how the tool and the prompts start *)

(** What the handlers answer before any ranking or prompt text: one of the
    three fixed messages, or the parsed reference with its details. *)
Inductive FrontResult : Type :=
| AskForUrl                       (* the prompts' answer to an empty prUrl *)
| InvalidUrlResult                (* no pull-request URL in prUrl *)
| DetailsFailedResult             (* getPullRequestDetails returned null *)
| Proceed (p : PullRequestParams) (d : PullRequestDetails).

(** [find-pr-buddy]: [parsePullRequestUrl], then [getPullRequestDetails]. *)
Definition find_pr_buddy_front (env : Env) (prUrl : string)
  : outcome FrontResult :=
  match parsePullRequestUrl prUrl with
  | None => Return InvalidUrlResult
  | Some prParams =>
      obind (getPullRequestDetails env (Some prParams)) (fun prDetails =>
      match prDetails with
      | None => Return DetailsFailedResult
      | Some d => Return (Proceed prParams d)
      end)
  end.

(** The three prompts ([estimate-review-time], [analyze-pr-quality],
    [improve-pr-description]) first test [if (!prUrl)]. *)
Definition prompt_front (env : Env) (prUrl : string) : outcome FrontResult :=
  if negb (truthy prUrl) then Return AskForUrl
  else find_pr_buddy_front env prUrl.

(** ** Further vocabulary *)

(** No [:] in [s]. *)
Definition colon_free (s : string) : Prop :=
  all_chars (fun c => negb (Ascii.eqb c ":")) s = true.

(** The entry [getReviewHistory] pushes for a matched review whose comments
    the API lists as [commentsOf]. *)
Definition entry_of (commentsOf : N -> N -> list ApiComment)
    (m : PullRequest * Review) : ReviewEntry :=
  {| entry_prNumber := pr_number (fst m);
     submittedAt := default ""%string (submitted_at (snd m));
     comments := map (formatComment (fst m))
                     (commentsOf (pr_number (fst m)) (review_id (snd m))) |}.

(** The API's answers [getReviewHistory] needs about [p], with the
    comments named. *)
Definition history_comments_for (env : Env) (o r R : string) (since : Z)
    (reviewsOf : N -> list Review) (commentsOf : N -> N -> list ApiComment)
    (p : PullRequest) : Prop :=
  since <= Date_getTime env (created_at p) ->
  pulls_listReviews (rest env) o r (pr_number p)
    = Return (reviewsOf (pr_number p)) /\
  (forall review,
      In review (reviewsOf (pr_number p)) ->
      reviewed_by R review = true ->
      pulls_listReviewComments (rest env) o r (pr_number p)
                               (review_id review)
      = Return (commentsOf (pr_number p) (review_id review))).

(** What one matched review adds to the variables of the loops. *)
Definition accumulate (env : Env) (commentsOf : N -> N -> list ApiComment)
    (a : Acc) (m : PullRequest * Review) : Acc :=
  {| acc_reviews := acc_reviews a ++ [entry_of commentsOf m];
     acc_totalComments :=
       (acc_totalComments a
        + List.length (comments (entry_of commentsOf m)))%nat;
     acc_totalResponseTime :=
       acc_totalResponseTime a + responseTime env (fst m) (snd m);
     acc_lastReviewAt := updateLastReviewAt (snd m) (acc_lastReviewAt a) |}.

(** The submission times of the matched reviews, in order. *)
Definition submitted_times (matched : list (PullRequest * Review))
  : list string :=
  flat_map (fun m => match submitted_at (snd m) with
                     | Some s => [s]
                     | None => []
                     end) matched.

(** An environment without a token. *)
Definition no_token (env : Env) : Prop :=
  GITHUB_TOKEN env = None \/ GITHUB_TOKEN env = Some ""%string.

(** [acme] on a day when file listings are rate limited. *)
Definition acme_rate_limited : Octokit :=
  {| repos_listForOrg := repos_listForOrg acme;
     pulls_list := pulls_list acme;
     pulls_get := pulls_get acme;
     pulls_listFiles := fun _ _ _ => Throw RateLimited;
     pulls_listReviews := pulls_listReviews acme;
     pulls_listReviewComments := pulls_listReviewComments acme |}.

(** An organisation API for the examples: alice has a profile name, the
    lookup of bob fails. *)
Definition acme_org : OrgApi :=
  {| orgs_listMembers := fun _ => Return [mkUser "alice" None; bob];
     users_getByUsername := fun l =>
       if (l =? "alice")%string then Return alice else Throw NotFound |}.

(** * Properties *)

(** ** The cache *)

Section CacheFacts.
Context {T : Type}.
Implicit Types (s : Cache.CacheStore T) (k : string) (v : T).

Lemma cache_lookup_set now k v s :
  Cache.cache (Cache.set now k v s) !! k = Some (Cache.mkCache v now).
Proof. unfold Cache.set; simpl. apply lookup_insert_eq. Qed.

Lemma cache_get_miss now k s :
  Cache.cache s !! k = None -> Cache.get now k s = (None, s).
Proof. intros H. unfold Cache.get. now rewrite H. Qed.

Lemma cache_get_fresh now k s c :
  Cache.cache s !! k = Some c -> now - Cache.timestamp c <= Cache.ttl s ->
  Cache.get now k s = (Some (Cache.data c), s).
Proof.
  intros H Hage. unfold Cache.get. rewrite H.
  destruct (Z.gtb_spec (now - Cache.timestamp c) (Cache.ttl s));
    [lia | reflexivity].
Qed.

Lemma cache_get_stale now k s c :
  Cache.cache s !! k = Some c -> Cache.ttl s < now - Cache.timestamp c ->
  Cache.get now k s
  = (None, Cache.mkStore (delete k (Cache.cache s)) (Cache.ttl s)).
Proof.
  intros H Hage. unfold Cache.get. rewrite H.
  destruct (Z.gtb_spec (now - Cache.timestamp c) (Cache.ttl s));
    [reflexivity | lia].
Qed.

End CacheFacts.


(** C4. After [set(k, v)] at time [t0], a [get(k)] at a time [now] with
    [now - t0 <= ttl] returns exactly [v] and leaves the store as it is; a
    [get(k)] with [now - t0 > ttl] returns absent and the entry is gone from
    the store (and no longer counts toward its size); a [get] of a key the
    store does not hold returns absent and leaves the store unchanged. *)
Theorem cache_set_get_ttl :
  forall (T : Type) (s : Cache.CacheStore T) (k : string) (v : T) (t0 now : Z),
    let s1 := Cache.set t0 k v s in
    (now - t0 <= Cache.ttl s -> Cache.get now k s1 = (Some v, s1)) /\
    (Cache.ttl s < now - t0 ->
       fst (Cache.get now k s1) = None /\
       Cache.cache (snd (Cache.get now k s1)) !! k = None /\
       size (Cache.cache (snd (Cache.get now k s1)))
         = Nat.pred (size (Cache.cache s1))) /\
    (Cache.cache s !! k = None -> Cache.get now k s = (None, s)).
Proof.
  intros T s k v t0 now s1. repeat split.
  - intros Hage.
    apply (cache_get_fresh now k s1 (Cache.mkCache v t0));
      [apply cache_lookup_set | exact Hage].
  - rewrite (cache_get_stale now k s1 (Cache.mkCache v t0));
      [reflexivity | apply cache_lookup_set | exact H].
  - rewrite (cache_get_stale now k s1 (Cache.mkCache v t0));
      [simpl; apply lookup_delete_eq | apply cache_lookup_set | exact H].
  - rewrite (cache_get_stale now k s1 (Cache.mkCache v t0));
      [simpl | apply cache_lookup_set | exact H].
    rewrite map_size_delete_Some; [reflexivity|].
    exists (Cache.mkCache v t0). apply lookup_insert_eq.
  - apply cache_get_miss.
Qed.

Lemma cache_set_get_ttl_witness :
  let s : Cache.CacheStore nat := Cache.new None in
  let s1 := Cache.set 1000 "pr:acme:widgets" 7%nat s in
  Cache.get 301000 "pr:acme:widgets" s1 = (Some 7%nat, s1) /\
  fst (Cache.get 301001 "pr:acme:widgets" s1) = None /\
  Cache.get 5 "pr:acme:widgets" s = (None, s).
Proof.
  pose proof (cache_set_get_ttl nat (Cache.new None)
                "pr:acme:widgets" 7%nat 1000 301000) as [H1 _].
  pose proof (cache_set_get_ttl nat (Cache.new None)
                "pr:acme:widgets" 7%nat 1000 301001) as [_ [H2 H3]].
  split; [| split].
  - apply H1. vm_compute. discriminate.
  - apply H2. vm_compute. reflexivity.
  - apply H3. reflexivity.
Defined.

(** ** [getPullRequestByOwner] *)

(** The array the function returns is allocated first, at reference 0, and
    the loop only ever writes to the arrays it allocates itself. *)
Lemma getPullRequestByOwner_body_outer octokit o repo_ h h' :
  (0 < fresh h)%nat -> cells h !! 0%nat = Some [] ->
  getPullRequestByOwner_body octokit o repo_ h = Return h' ->
  (0 < fresh h')%nat /\ cells h' !! 0%nat = Some [].
Proof.
  intros Hfresh Hcell. unfold getPullRequestByOwner_body.
  destruct (pulls_list octokit o (repo_name repo_) Defaults) as [data|e];
    simpl; [|discriminate].
  intros [= <-]. simpl. split; [lia|].
  rewrite !lookup_insert_ne by lia. exact Hcell.
Qed.

(** The loop fails exactly when one of the listings fails, and otherwise
    leaves the outer array empty. *)
Lemma getPullRequestByOwner_loop_outer octokit o repos h :
  (0 < fresh h)%nat -> cells h !! 0%nat = Some [] ->
  obind (getPullRequestByOwner_loop octokit o repos h)
        (fun h' => Return (deref 0%nat h'))
  = obind (concat_pulls octokit o repos) (fun _ => Return []).
Proof.
  revert h. induction repos as [|repo_ repos IH]; intros h Hfresh Hcell.
  - cbn [getPullRequestByOwner_loop concat_pulls obind].
    unfold deref. now rewrite Hcell.
  - cbn [getPullRequestByOwner_loop concat_pulls obind].
    destruct (getPullRequestByOwner_body octokit o repo_ h) as [h1|e] eqn:Hb.
    + destruct (getPullRequestByOwner_body_outer _ _ _ _ _ Hfresh Hcell Hb)
        as [Hf1 Hc1].
      unfold getPullRequestByOwner_body in Hb.
      destruct (pulls_list octokit o (repo_name repo_) Defaults) as [data|e];
        simpl in *; [|discriminate].
      rewrite (IH h1 Hf1 Hc1).
      now destruct (concat_pulls octokit o repos).
    + unfold getPullRequestByOwner_body in Hb.
      destruct (pulls_list octokit o (repo_name repo_) Defaults) as [data|e'];
        simpl in *; congruence.
Qed.

(** Whatever the organisation holds, a call that returns returns the empty
    list. *)
Lemma getPullRequestByOwner_always_empty env o :
  getPullRequestByOwner env o
  = obind (getOctokit env) (fun octokit =>
    obind (repos_listForOrg octokit o) (fun repos =>
    obind (concat_pulls octokit o repos) (fun _ => Return []))).
Proof.
  unfold getPullRequestByOwner.
  destruct (getOctokit env) as [octokit|e]; simpl; [|reflexivity].
  destruct (repos_listForOrg octokit o) as [repos|e]; simpl; [|reflexivity].
  apply (getPullRequestByOwner_loop_outer octokit o repos); simpl.
  - lia.
  - apply lookup_insert_eq.
Qed.

(** C1 (fails on the code). For the organisation [acme], whose repository
    [widgets] has the open pull request 42, the concatenation of the
    repositories' pull requests is [[pr42]], and [getPullRequestByOwner]
    returns the empty list. *)
Theorem getPullRequestByOwner_loses_pull_requests :
  obind (repos_listForOrg acme "acme") (concat_pulls acme "acme")
    = Return [pr42] /\
  getPullRequestByOwner acme_env "acme" = Return [].
Proof.
  split.
  - reflexivity.
  - rewrite getPullRequestByOwner_always_empty. reflexivity.
Qed.

(** ** The filter of [find-pr-buddy] *)

(** A buddy is dropped only when it is both a requested reviewer and the
    author. *)
Lemma keep_buddy_false prDetails buddy :
  keep_buddy prDetails buddy = false <->
  (exists r, In r (reviewers prDetails) /\ login r = login buddy) /\
  login buddy = login (user (pr prDetails)).
Proof.
  unfold keep_buddy. rewrite orb_false_iff, !negb_false_iff.
  rewrite existsb_exists, String.eqb_eq.
  split; intros [[r [Hin Hr]] Ha]; (split; [exists r; split|]); auto;
    now apply String.eqb_eq.
Qed.

(** C2 (fails on the code). For pull request 42, written by alice with a
    review requested from bob, and the candidates alice and bob, the tool
    answers with both: the author and the already requested reviewer. *)
Theorem find_pr_buddy_keeps_author_and_requested :
  let prDetails := {| pr := pr42; files := []; reviewers := [bob] |} in
  login (user (pr prDetails)) = "alice"%string /\
  map login (reviewers prDetails) = ["bob"%string] /\
  recommended None prDetails [alice; bob] ∅ no_history (fun _ => 0%nat)
    = ["alice"%string; "bob"%string].
Proof. repeat split. Qed.

(** ** [getPullRequestDetails] *)

Lemma getOctokit_token env tok :
  GITHUB_TOKEN env = Some tok -> tok <> ""%string ->
  getOctokit env = Return (rest env).
Proof.
  intros Ht Hne. unfold getOctokit. rewrite Ht.
  destruct (String.eqb_spec tok ""); [contradiction | reflexivity].
Qed.

(** A failure of [pulls.get] is not caught. *)
Lemma getPullRequestDetails_get_fails env p e :
  getOctokit env = Return (rest env) ->
  pulls_get (rest env) (owner p) (repo p) (pullNumber p) = Throw e ->
  getPullRequestDetails env (Some p) = Throw e.
Proof.
  intros Ho Hg. unfold getPullRequestDetails. rewrite Ho. simpl.
  now rewrite Hg.
Qed.

(** A failure of [pulls.listFiles] is caught and becomes [null]. *)
Lemma getPullRequestDetails_files_fail env p pr_ e :
  getOctokit env = Return (rest env) ->
  pulls_get (rest env) (owner p) (repo p) (pullNumber p) = Return pr_ ->
  pulls_listFiles (rest env) (owner p) (repo p) (pullNumber p) = Throw e ->
  getPullRequestDetails env (Some p) = Return None.
Proof.
  intros Ho Hg Hf. unfold getPullRequestDetails. rewrite Ho. simpl.
  rewrite Hg. simpl. now rewrite Hf.
Qed.

Lemma getPullRequestDetails_found env p pr_ fs :
  getOctokit env = Return (rest env) ->
  pulls_get (rest env) (owner p) (repo p) (pullNumber p) = Return pr_ ->
  pulls_listFiles (rest env) (owner p) (repo p) (pullNumber p) = Return fs ->
  getPullRequestDetails env (Some p)
  = Return (Some (mkDetails pr_ fs (default [] (requested_reviewers pr_)))).
Proof.
  intros Ho Hg Hf. unfold getPullRequestDetails. rewrite Ho. simpl.
  rewrite Hg. simpl. now rewrite Hf.
Qed.

(** C3 (fails on the code). acme/widgets has no pull request 999: the API
    answers 404 to [pulls.get], and [getPullRequestDetails] rejects with
    that error instead of returning [null]; for the existing pull request
    42 it returns [{pr, files, reviewers}]. *)
Theorem getPullRequestDetails_missing_pr_throws :
  pulls_get acme "acme" "widgets" (Num 999) = Throw NotFound /\
  getPullRequestDetails acme_env (Some (mkParams "acme" "widgets" (Num 999)))
    = Throw NotFound /\
  getPullRequestDetails acme_env (Some (mkParams "acme" "widgets" (Num 42)))
    = Return (Some (mkDetails pr42 [mkFile "x.ts"; mkFile "y.ts"] [bob])).
Proof. repeat split. Qed.

(** ** Rounding to the nearest double *)

Lemma pow2_pos e : (0 < pow2 e)%Q.
Proof. apply Qpower_0_lt. reflexivity. Qed.

Lemma pow2_add a b : (pow2 (a + b) == pow2 a * pow2 b)%Q.
Proof. apply Qpower_plus. discriminate. Qed.

Lemma pow2_le a b : a <= b -> (pow2 a <= pow2 b)%Q.
Proof. intros H. apply Qpower_le_compat_l; [exact H | discriminate]. Qed.

Lemma pow2_Z e : 0 <= e -> (pow2 e == inject_Z (2 ^ e))%Q.
Proof. intros H. unfold pow2. now rewrite Zpower_Qpower. Qed.

Lemma pow2_succ e : (pow2 (e + 1) == 2 * pow2 e)%Q.
Proof. rewrite pow2_add. change (pow2 1) with 2%Q. ring. Qed.

Lemma pow2_sub_mul a b : (pow2 (a - b) * pow2 b == pow2 a)%Q.
Proof. rewrite <- pow2_add. now replace (a - b + b) with a by lia. Qed.

Lemma inject_Z_pos n : 0 < n -> (0 < inject_Z n)%Q.
Proof. intros H. change 0%Q with (inject_Z 0). now rewrite <- Zlt_Qlt. Qed.

(** [ilog2 x] is the binary exponent of [x]. *)
Lemma ilog2_spec x :
  (0 < x)%Q -> (pow2 (ilog2 x) <= x /\ x < pow2 (ilog2 x + 1))%Q.
Proof.
  intros Hx. destruct x as [n d].
  assert (0 < n) as Hn by (unfold Qlt in Hx; simpl in Hx; lia).
  unfold ilog2. cbn [Qnum Qden].
  set (a := Z.log2 n). set (b := Z.log2 (Z.pos d)).
  destruct (Z.log2_spec n Hn) as [Ha1 Ha2]. fold a in Ha1, Ha2.
  destruct (Z.log2_spec (Z.pos d) ltac:(lia)) as [Hb1 Hb2].
  fold b in Hb1, Hb2.
  assert (0 <= a) as Ha0 by apply Z.log2_nonneg.
  assert (0 <= b) as Hb0 by apply Z.log2_nonneg.
  assert ((n # d) * inject_Z (Z.pos d) == inject_Z n)%Q as Hnd
    by (rewrite (Qmake_Qdiv n d); field; discriminate).
  assert (pow2 a <= inject_Z n)%Q as A1
    by (rewrite pow2_Z by lia; now rewrite <- Zle_Qle).
  assert (inject_Z n < 2 * pow2 a)%Q as A2.
  { rewrite <- pow2_succ, pow2_Z by lia. rewrite <- Zlt_Qlt.
    replace (a + 1) with (Z.succ a) by lia. exact Ha2. }
  assert (pow2 b <= inject_Z (Z.pos d))%Q as B1
    by (rewrite pow2_Z by lia; now rewrite <- Zle_Qle).
  assert (inject_Z (Z.pos d) < 2 * pow2 b)%Q as B2.
  { rewrite <- pow2_succ, pow2_Z by lia. rewrite <- Zlt_Qlt.
    replace (b + 1) with (Z.succ b) by lia. exact Hb2. }
  pose proof (pow2_pos b) as Pb.
  pose proof (pow2_sub_mul a b) as E.
  assert (n # d < 2 * pow2 (a - b))%Q as Hup.
  { apply Qmult_lt_r with (z := pow2 b); [exact Pb|].
    setoid_replace (2 * pow2 (a - b) * pow2 b)%Q with (2 * pow2 a)%Q
      using relation Qeq by (rewrite <- E; ring).
    apply Qle_lt_trans with (inject_Z n); [|exact A2].
    rewrite <- Hnd. apply Qmult_le_l; [exact Hx | exact B1]. }
  assert (pow2 (a - b) < 2 * (n # d))%Q as Hlo.
  { apply Qmult_lt_r with (z := pow2 b); [exact Pb|].
    rewrite E. apply Qle_lt_trans with (inject_Z n); [exact A1|].
    rewrite <- Hnd.
    setoid_replace (2 * (n # d) * pow2 b)%Q with ((n # d) * (2 * pow2 b))%Q
      using relation Qeq by ring.
    apply Qmult_lt_l; [exact Hx | exact B2]. }
  destruct (Qle_bool (pow2 (a - b)) (n # d)) eqn:Eb.
  - apply Qle_bool_iff in Eb. rewrite pow2_succ. split; [exact Eb | exact Hup].
  - assert (n # d < pow2 (a - b))%Q as Hlt.
    { apply Qnot_le_lt. intros H. apply Qle_bool_iff in H. congruence. }
    replace (a - b - 1 + 1) with (a - b) by lia. split; [|exact Hlt].
    assert (pow2 (a - b) == 2 * pow2 (a - b - 1))%Q as E2
      by (rewrite <- pow2_succ; now replace (a - b - 1 + 1) with (a - b) by lia).
    lra.
Qed.

Lemma ilog2_lt x k : (0 < x)%Q -> (x < pow2 k)%Q -> ilog2 x < k.
Proof.
  intros Hx H. destruct (ilog2_spec x Hx) as [L1 L2].
  destruct (Z.lt_ge_cases (ilog2 x) k) as [?|Hge]; [assumption|].
  pose proof (pow2_le k (ilog2 x) ltac:(lia)). lra.
Qed.

(** [rne x] is within a half of [x], keeps integers and the order. *)
Lemma rne_bounds x : (x - (1 # 2) <= inject_Z (rne x) <= x + (1 # 2))%Q.
Proof.
  unfold rne. pose proof (Qfloor_le x) as H1. pose proof (Qlt_floor x) as H2.
  rewrite inject_Z_plus in H2. change (inject_Z 1) with 1%Q in H2.
  destruct (Qcompare_spec (x - inject_Z (Qfloor x)) (1 # 2)) as [E|E|E].
  - destruct (Z.even (Qfloor x));
      [|rewrite inject_Z_plus; change (inject_Z 1) with 1%Q]; lra.
  - lra.
  - rewrite inject_Z_plus; change (inject_Z 1) with 1%Q. lra.
Qed.

Lemma rne_Z x n : (x == inject_Z n)%Q -> rne x = n.
Proof.
  intros E. unfold rne.
  assert (Qfloor x = n) as F by (rewrite E; apply Qfloor_Z).
  rewrite F.
  destruct (Qcompare_spec (x - inject_Z n) (1 # 2)) as [E'|E'|E']; try lra.
  reflexivity.
Qed.

Lemma rne_mono x y : (x <= y)%Q -> rne x <= rne y.
Proof.
  intros Hxy.
  pose proof (Qfloor_resp_le x y Hxy) as Hf.
  pose proof (Qfloor_le x) as X1. pose proof (Qlt_floor x) as X2.
  pose proof (Qfloor_le y) as Y1. pose proof (Qlt_floor y) as Y2.
  rewrite inject_Z_plus in X2, Y2. change (inject_Z 1) with 1%Q in X2, Y2.
  destruct (Z.eq_dec (Qfloor x) (Qfloor y)) as [Ef|Nf].
  - unfold rne. rewrite Ef in *.
    destruct (Qcompare_spec (x - inject_Z (Qfloor y)) (1 # 2)) as [E|E|E];
    destruct (Qcompare_spec (y - inject_Z (Qfloor y)) (1 # 2)) as [E'|E'|E'];
      try lra; try lia; destruct (Z.even (Qfloor y)); lia.
  - assert (rne x <= Qfloor x + 1) as Hx.
    { unfold rne. destruct (_ ?= _)%Q; [destruct (Z.even _)| |]; lia. }
    assert (Qfloor y <= rne y) as Hy.
    { unfold rne. destruct (_ ?= _)%Q; [destruct (Z.even _)| |]; lia. }
    lia.
Qed.

Lemma rne_nonneg x : (0 <= x)%Q -> 0 <= rne x.
Proof. intros H. rewrite <- (rne_Z 0 0) by reflexivity. now apply rne_mono. Qed.

Lemma u64_pow2 : (u64 == pow2 (-53))%Q.
Proof. reflexivity. Qed.

Lemma eta64_pow2 : (eta64 == pow2 (-1075))%Q.
Proof. vm_compute. reflexivity. Qed.

(** Half a unit in the last place is at most [x * 2^-53 + 2^-1075]. *)
Lemma ulp_bound x :
  (0 < x)%Q -> (pow2 (ulp_exp x) <= 2 * (x * u64 + eta64))%Q.
Proof.
  intros Hx. unfold ulp_exp. destruct (ilog2_spec x Hx) as [L1 _].
  destruct (Z.max_spec (ilog2 x - 52) (-1074)) as [[_ ->]|[_ ->]].
  - rewrite eta64_pow2.
    assert (pow2 (-1074) == 2 * pow2 (-1075))%Q as E
      by (rewrite <- pow2_succ; reflexivity).
    rewrite E. assert (0 < u64)%Q by reflexivity.
    assert (0 <= x * u64)%Q by (apply Qmult_le_0_compat; lra). lra.
  - assert (pow2 (ilog2 x - 52) == pow2 (ilog2 x) * (2 * u64))%Q as E.
    { unfold Z.sub. rewrite pow2_add. apply Qmult_comp; reflexivity. }
    rewrite E. assert (0 < eta64)%Q by reflexivity.
    assert (pow2 (ilog2 x) * (2 * u64) <= x * (2 * u64))%Q
      by (apply Qmult_le_compat_r; [exact L1 | discriminate]).
    lra.
Qed.

Lemma round_pos_value x :
  (0 < x)%Q ->
  near x (inject_Z (rne (x / pow2 (ulp_exp x))) * pow2 (ulp_exp x)).
Proof.
  intros Hx. unfold near.
  pose proof (pow2_pos (ulp_exp x)) as Pe.
  pose proof (ulp_bound x Hx) as Hu.
  pose proof (rne_bounds (x / pow2 (ulp_exp x))) as [R1 R2].
  assert (0 <= x / pow2 (ulp_exp x))%Q as Hq
    by (apply Qle_shift_div_l; [exact Pe | lra]).
  pose proof (rne_nonneg _ Hq) as Hm.
  set (m := rne (x / pow2 (ulp_exp x))) in *.
  set (p := pow2 (ulp_exp x)) in *.
  assert (x / p * p == x)%Q as E by (field; lra).
  assert (0 <= inject_Z m)%Q as Hm'
    by (change 0%Q with (inject_Z 0); now rewrite <- Zle_Qle).
  split; [apply Qmult_le_0_compat; lra|].
  assert ((x / p - (1 # 2)) * p <= inject_Z m * p)%Q as A1
    by (apply Qmult_le_compat_r; lra).
  assert (inject_Z m * p <= (x / p + (1 # 2)) * p)%Q as A2
    by (apply Qmult_le_compat_r; lra).
  assert ((x / p - (1 # 2)) * p == x - p * (1 # 2))%Q as E1
    by (rewrite <- E at 2; ring).
  assert ((x / p + (1 # 2)) * p == x + p * (1 # 2))%Q as E2
    by (rewrite <- E at 2; ring).
  rewrite E1 in A1. rewrite E2 in A2. lra.
Qed.

(** Rounding in the finite range gives a finite double next to [x]. *)
Lemma round64_error x :
  (0 <= x)%Q -> (x <= pow2 1023)%Q -> exists y, round64 x = Fin y /\ near x y.
Proof.
  intros H0 Hmax. unfold round64.
  destruct (Qcompare_spec x 0) as [E|E|E]; [| lra |].
  - exists 0%Q. split; [reflexivity|]. unfold near. rewrite E.
    assert (0 < eta64)%Q by reflexivity. assert (0 < u64)%Q by reflexivity.
    lra.
  - pose proof (round_pos_value x E) as H. unfold round_pos, near in *.
    set (y := (inject_Z (rne (x / pow2 (ulp_exp x))) * pow2 (ulp_exp x))%Q)
      in *.
    destruct (Qle_bool (pow2 1024) y) eqn:Ey.
    + exfalso. apply Qle_bool_iff in Ey.
      assert (pow2 1024 == 2 * pow2 1023)%Q as E2
        by (rewrite <- pow2_succ; reflexivity).
      assert (x * u64 <= pow2 1023 * u64)%Q
        by (apply Qmult_le_compat_r; [lra | discriminate]).
      assert (pow2 1023 * u64 + eta64 < pow2 1023)%Q.
      { assert (eta64 < 1 # 2)%Q by reflexivity.
        assert (1 <= pow2 1023)%Q
          by (change 1%Q with (pow2 0); apply pow2_le; lia).
        unfold u64. lra. }
      lra.
    + exists (Qred y). split; [reflexivity|]. rewrite (Qred_correct y).
      exact H.
Qed.

Lemma round64_near x :
  (0 <= x)%Q -> (x <= two64)%Q -> exists y, round64 x = Fin y /\ near x y.
Proof.
  intros H0 H1. apply round64_error; [exact H0|].
  assert (two64 <= pow2 1023)%Q
    by (change two64 with (pow2 64); apply pow2_le; lia).
  lra.
Qed.

Lemma Qred_inject_Z n : Qred (inject_Z n) = inject_Z n.
Proof. apply Qcanon.Qred_identity. simpl. apply Z.gcd_1_r. Qed.

(** The integers up to 2^53 are doubles: rounding keeps them. *)
Lemma round_pos_Z n :
  0 < n < 2 ^ 53 -> round_pos (inject_Z n) = Fin (inject_Z n).
Proof.
  intros [Hn0 Hn]. unfold round_pos.
  set (x := inject_Z n). set (e := ulp_exp x).
  assert (0 < x)%Q as Hx by now apply inject_Z_pos.
  assert (e <= 0) as He.
  { unfold e, ulp_exp.
    assert (ilog2 x < 53).
    { apply ilog2_lt; [exact Hx|]. rewrite pow2_Z by lia. unfold x.
      now rewrite <- Zlt_Qlt. }
    lia. }
  assert (pow2 e * pow2 (- e) == 1)%Q as Einv
    by (rewrite <- pow2_add; now replace (e + - e) with 0 by lia).
  pose proof (pow2_pos e) as Pe.
  assert (x / pow2 e == inject_Z (n * 2 ^ (- e)))%Q as Ek.
  { rewrite inject_Z_mult. rewrite <- pow2_Z by lia. fold x.
    apply Qmult_inj_r with (pow2 e); [lra|].
    setoid_replace (x * pow2 (- e) * pow2 e)%Q
      with (x * (pow2 e * pow2 (- e)))%Q using relation Qeq by ring.
    rewrite Einv. field. lra. }
  rewrite (rne_Z _ _ Ek).
  assert (inject_Z (n * 2 ^ (- e)) * pow2 e == x)%Q as Ey
    by (rewrite <- Ek; field; lra).
  assert (Qle_bool (pow2 1024) (inject_Z (n * 2 ^ (- e)) * pow2 e) = false)
    as Eb.
  { destruct (Qle_bool _ _) eqn:Eb; [|reflexivity]. exfalso.
    apply Qle_bool_iff in Eb. rewrite Ey in Eb.
    assert (x < pow2 53)%Q
      by (rewrite pow2_Z by lia; unfold x; now rewrite <- Zlt_Qlt).
    pose proof (pow2_le 53 1024 ltac:(lia)). lra. }
  rewrite Eb. f_equal. rewrite (Qred_complete _ _ Ey). apply Qred_inject_Z.
Qed.

Lemma round64_Z n :
  0 <= n <= 2 ^ 53 -> round64 (inject_Z n) = Fin (inject_Z n).
Proof.
  intros [Hn0 Hn].
  destruct (Z.eq_dec n 0) as [->|N0]; [reflexivity|].
  destruct (Z.eq_dec n (2 ^ 53)) as [->|N1]; [vm_compute; reflexivity|].
  unfold round64.
  assert (0 < inject_Z n)%Q as Hx by (apply inject_Z_pos; lia).
  destruct (Qcompare_spec (inject_Z n) 0) as [E|E|E]; try lra.
  apply round_pos_Z. lia.
Qed.

Lemma of_nat_exact n :
  Z.of_nat n <= 2 ^ 53 -> of_nat n = Fin (inject_Z (Z.of_nat n)).
Proof. intros H. apply round64_Z. lia. Qed.

Lemma nearest_number_exact n : (n <= 2 ^ 53)%N -> nearest_number n = Num n.
Proof.
  intros H. unfold nearest_number. rewrite round64_Z by lia.
  now rewrite Qfloor_Z, N2Z.id.
Qed.





(** ** The arithmetic on numbers that are not negative *)

Lemma fadd_near a b :
  (0 <= a)%Q -> (0 <= b)%Q -> (a + b <= two64)%Q ->
  exists y, fadd (Fin a) (Fin b) = Fin y /\ near (a + b) y.
Proof. intros Ha Hb H. apply round64_near; lra. Qed.

Lemma fmul_near a b :
  (0 <= a)%Q -> (0 <= b)%Q -> (a * b <= two64)%Q ->
  exists y, fmul (Fin a) (Fin b) = Fin y /\ near (a * b) y.
Proof.
  intros Ha Hb H. apply round64_near; [|exact H]. now apply Qmult_le_0_compat.
Qed.

Lemma fdiv_near a b :
  (0 <= a)%Q -> (0 < b)%Q -> (a / b <= two64)%Q ->
  exists y, fdiv (Fin a) (Fin b) = Fin y /\ near (a / b) y.
Proof.
  intros Ha Hb H. unfold fdiv.
  destruct (Qcompare_spec b 0) as [E|E|E]; try lra.
  apply round64_near; [|exact H]. apply Qle_shift_div_l; lra.
Qed.

(** The doubles of the literals [0.3] and [0.4]. *)
Lemma literal_3_10 :
  literal (3 # 10) = Fin (5404319552844595 # 18014398509481984).
Proof. vm_compute. reflexivity. Qed.

Lemma literal_4_10 :
  literal (4 # 10) = Fin (3602879701896397 # 9007199254740992).
Proof. vm_compute. reflexivity. Qed.

(** ** The score *)

Lemma inject_nat_bounds n b :
  Z.of_nat n <= b -> (0 <= inject_Z (Z.of_nat n) <= inject_Z b)%Q.
Proof.
  intros H. split; [change 0%Q with (inject_Z 0)|]; rewrite <- Zle_Qle; lia.
Qed.

Ltac unfold_bounds := unfold near, u64, eta64, four_ulps, two64 in *.

(** The load term [(1 / (pendingReviews + 1)) * 0.3] is within four units
    in the last place of [0.3 / (pendingReviews + 1)]. *)
Lemma load_term_value p :
  small_count p ->
  let q := (1 / (inject_Z (Z.of_nat p) + 1))%Q in
  (1 # 100001 <= q <= 1)%Q /\
  exists a,
    fmul (fdiv (Fin 1) (plus_one (JSNumber p))) (literal (3 # 10)) = Fin a /\
    ((3 # 10) * q * (1 - four_ulps) <= a <= (3 # 10) * q * (1 + four_ulps))%Q.
Proof.
  intros Hp q. unfold small_count in Hp. cbn [plus_one].
  rewrite of_nat_exact by lia. rewrite literal_3_10.
  destruct (inject_nat_bounds p 100000 Hp) as [P0 P1].
  change (inject_Z 100000) with 100000%Q in P1.
  set (P := inject_Z (Z.of_nat p)) in *.
  assert (fadd (Fin P) (Fin 1) = Fin (P + 1)) as ->.
  { cbn [fadd]. unfold P. change 1%Q with (inject_Z 1).
    rewrite <- inject_Z_plus. apply round64_Z. lia. }
  assert (1 # 100001 <= q <= 1)%Q as Hq.
  { unfold q. split.
    - apply Qle_shift_div_l; lra.
    - apply Qle_shift_div_r; lra. }
  split; [exact Hq|].
  destruct (fdiv_near 1 (P + 1)) as (a1 & -> & Ha1);
    [lra | lra | fold q; unfold two64; lra|].
  fold q in Ha1.
  set (c3 := (5404319552844595 # 18014398509481984)%Q).
  assert (0 <= a1 <= 2)%Q as B1 by (unfold_bounds; lra).
  destruct (fmul_near a1 c3) as (a2 & -> & Ha2);
    [lra | discriminate | unfold c3, two64; lra|].
  exists a2. split; [reflexivity|]. unfold c3 in *. unfold_bounds. lra.
Qed.

(** The term [(relatedFileChanges / 10) * 0.4], next to
    [0.04 * relatedFileChanges]. *)
Lemma related_term_value r :
  small_count r ->
  let R := inject_Z (Z.of_nat r) in
  (0 <= R <= 100000)%Q /\
  exists b,
    fmul (fdiv (of_nat r) (Fin 10)) (literal (4 # 10)) = Fin b /\
    (0 <= b /\
     (4 # 100) * R * (1 - four_ulps) - 2 * eta64 <= b
       <= (4 # 100) * R * (1 + four_ulps) + 2 * eta64)%Q.
Proof.
  intros Hr R. unfold small_count in Hr.
  rewrite of_nat_exact by lia. rewrite literal_4_10.
  destruct (inject_nat_bounds r 100000 Hr) as [R0 R1].
  change (inject_Z 100000) with 100000%Q in R1. fold R in R0, R1 |- *.
  split; [now split|].
  assert (R / 10 == R * (1 # 10))%Q as E by (unfold Qdiv; reflexivity).
  destruct (fdiv_near R 10) as (b1 & -> & Hb1);
    [lra | reflexivity | rewrite E; unfold two64; lra|].
  unfold_bounds. rewrite E in Hb1.
  set (c4 := (3602879701896397 # 9007199254740992)%Q).
  assert (0 <= b1 <= 20000)%Q as B1 by lra.
  destruct (fmul_near b1 c4) as (b2 & -> & Hb2);
    [lra | discriminate | unfold c4, two64; lra|].
  exists b2. split; [reflexivity|]. unfold c4 in *. unfold_bounds. lra.
Qed.

(** The term [(totalReviews / 50) * 0.3], next to [0.006 * totalReviews]. *)
Lemma reviews_term_value t :
  small_count t ->
  let T := inject_Z (Z.of_nat t) in
  (0 <= T <= 100000)%Q /\
  exists c,
    fmul (fdiv (of_nat t) (Fin 50)) (literal (3 # 10)) = Fin c /\
    (0 <= c /\
     (6 # 1000) * T * (1 - four_ulps) - 2 * eta64 <= c
       <= (6 # 1000) * T * (1 + four_ulps) + 2 * eta64)%Q.
Proof.
  intros Ht T. unfold small_count in Ht.
  rewrite of_nat_exact by lia. rewrite literal_3_10.
  destruct (inject_nat_bounds t 100000 Ht) as [T0 T1].
  change (inject_Z 100000) with 100000%Q in T1. fold T in T0, T1 |- *.
  split; [now split|].
  assert (T / 50 == T * (1 # 50))%Q as E by (unfold Qdiv; reflexivity).
  destruct (fdiv_near T 50) as (c1 & -> & Hc1);
    [lra | reflexivity | rewrite E; unfold two64; lra|].
  unfold_bounds. rewrite E in Hc1.
  set (c3 := (5404319552844595 # 18014398509481984)%Q).
  assert (0 <= c1 <= 4000)%Q as B1 by lra.
  destruct (fmul_near c1 c3) as (c2 & -> & Hc2);
    [lra | discriminate | unfold c3, two64; lra|].
  exists c2. split; [reflexivity|]. unfold c3 in *. unfold_bounds. lra.
Qed.


(** The score of a candidate with the three counts [p], [r], [t]. *)
Lemma score_unfold d p r t :
  has_counts d p r t ->
  score (withScore d)
  = fadd
      (fadd (fmul (fdiv (Fin 1) (plus_one (JSNumber p))) (literal (3 # 10)))
            (fmul (fdiv (of_nat r) (Fin 10)) (literal (4 # 10))))
      (fmul (fdiv (of_nat t) (Fin 50)) (literal (3 # 10))).
Proof.
  intros (Hp & <- & <-). unfold withScore. cbn [score]. now rewrite Hp.
Qed.

Ltac score_terms p r t Hp Hr Ht :=
  let a := fresh "a" in let b := fresh "b" in let c := fresh "c" in
  destruct (load_term_value p Hp) as (? & a & -> & ?);
  destruct (related_term_value r Hr) as (? & b & -> & ? & ?);
  destruct (reviews_term_value t Ht) as (? & c & -> & ? & ?);
  cbv zeta in *.

Ltac score_sum a b s H :=
  destruct (fadd_near a b) as (s & -> & H);
  [lra | lra | unfold_bounds; lra | unfold_bounds].

(** On the sample values rounding, quotient, product and sum are, to the
    last bit, what the Standard Library's IEEE 754 arithmetic gives,
    subnormal results and overflow to [Infinity] included; so is the
    score. *)
Example round64_agrees_with_binary64 :
  forallb (fun e => forallb (fun m =>
    same_number (round64 (inject_Z m * pow2 e)) (binary64 m e)
    && forallb (fun d =>
         let x := (inject_Z (m / 2) * pow2 e)%Q in
         same_number (fdiv (Fin (Qred x)) (Fin (inject_Z d)))
                     (SpecFloat.SFdiv 53 1024 (binary64 (m / 2) e)
                                      (binary64 d 0))
         && same_number (fmul (Fin (Qred x)) (Fin (inject_Z d)))
                        (SpecFloat.SFmul 53 1024 (binary64 (m / 2) e)
                                         (binary64 d 0))
         && same_number (fadd (Fin (Qred x)) (Fin (inject_Z d)))
                        (SpecFloat.SFadd 53 1024 (binary64 (m / 2) e)
                                         (binary64 d 0)))
       sample_divisors)
    sample_significands) sample_exponents
  = true.
Proof. vm_compute. reflexivity. Qed.

Example score_agrees_with_binary64 :
  forallb (fun p => forallb (fun r => forallb (fun t =>
    same_number
      (score (withScore (mkDetail "r" None (JSNumber p)
                                  (mkStats t 0 0 "" r) [])))
      (binary64_score p r t))
    sample_counts) sample_counts) sample_counts
  = true.
Proof. vm_compute. reflexivity. Qed.

(** Two candidates whose exact scores are both 0.46 get the doubles
    0.45999999999999996 and 0.46000000000000002. *)
Example score_rounding_breaks_a_tie :
  score (withScore (mkDetail "r" None 0 (mkStats 20 0 0 "" 1) []))
  = Fin (517913957147607 # 1125899906842624) /\
  score (withScore (mkDetail "s" None 0 (mkStats 0 0 0 "" 4) []))
  = Fin (8286623314361713 # 18014398509481984) /\
  (score_spec 0 1 20 == score_spec 0 4 0)%Q.
Proof. repeat split; vm_compute; reflexivity. Qed.


Lemma score_close d p r t :
  has_counts d p r t -> small_count p -> small_count r -> small_count t ->
  exists s, score (withScore d) = Fin s /\
    (score_spec p r t * (1 - score_tolerance) <= s
       <= score_spec p r t * (1 + score_tolerance))%Q.
Proof.
  intros Hd Hp Hr Ht. rewrite (score_unfold d p r t Hd). unfold score_spec.
  score_terms p r t Hp Hr Ht.
  set (q := (1 / (inject_Z (Z.of_nat p) + 1))%Q) in *.
  set (R := inject_Z (Z.of_nat r)) in *. set (T := inject_Z (Z.of_nat t)) in *.
  unfold Qdiv. change (/ 10)%Q with (1 # 10)%Q. change (/ 50)%Q with (1 # 50)%Q.
  unfold_bounds.
  score_sum a b s1 Hs1. score_sum s1 c s Hs.
  exists s. split; [reflexivity|]. unfold score_tolerance. lra.
Qed.





(** ** The order of numbers *)

Lemma fleb_refl x : x <> FNaN -> fleb x x = true.
Proof.
  destruct x as [|[]|q]; intros H; try reflexivity; [congruence|].
  apply Qle_bool_iff. apply Qle_refl.
Qed.



Lemma fleb_number x y : fleb x y = true -> x <> FNaN /\ y <> FNaN.
Proof. destruct x as [|[]|a], y as [|[]|b]; cbn; intros H; split; congruence. Qed.





(** ** Sorting and truncating *)


Lemma sort_insert_perm {A} (cmp : A -> A -> float64) x l :
  Permutation (sort_insert cmp x l) (x :: l).
Proof.
  induction l as [|y l IH]; simpl; [reflexivity|].
  destruct (nonpositive (cmp x y)); [reflexivity|].
  rewrite IH. apply perm_swap.
Qed.

Lemma sort_perm {A} (cmp : A -> A -> float64) l : Permutation (sort cmp l) l.
Proof.
  induction l as [|x l IH]; simpl; [reflexivity|].
  rewrite sort_insert_perm. now constructor.
Qed.






Lemma slice0_nonneg {A} (n : Z) (l : list A) :
  0 <= n -> slice0 n l = firstn (Z.to_nat n) l.
Proof.
  intros Hn. unfold slice0.
  destruct (Z.ltb_spec n 0) as [?|_]; [lia|].
  destruct (Z.le_gt_cases n (Z.of_nat (List.length l))) as [Hle|Hgt].
  - now rewrite Z.min_l.
  - rewrite Z.min_r by lia. rewrite Nat2Z.id.
    rewrite firstn_all. symmetry. apply firstn_all2. lia.
Qed.

(** Two members of a sorted list are in order one way or the other. *)
Lemma sorted_related {A} (R : A -> A -> Prop) (l : list A) (x y : A) :
  StronglySorted R l -> In x l -> In y l -> x = y \/ R x y \/ R y x.
Proof.
  induction 1 as [|a l Hs IH Ha]; cbn; [contradiction|].
  intros [<-|Hx] [<-|Hy]; auto.
  - right. left. now apply (proj1 (List.Forall_forall _ _) Ha).
  - right. right. now apply (proj1 (List.Forall_forall _ _) Ha).
Qed.

(** With the members d, constructor and b the scores are 0.3, [NaN] and
    0.47, and the order stays d, constructor, b. *)
Example inherited_member_three_candidates :
  map (fun x => (rd_login (detail x), score x))
      (scoredReviewers None
         (reviewerDetails (mkDetails pr42 [] [])
            [mkUser "d" None; mkUser "constructor" None; mkUser "b" None]
            ∅ ab_history ab_related))
  = [("d", Fin (5404319552844595 # 18014398509481984));
     ("constructor", FNaN);
     ("b", Fin (2116691824864133 # 4503599627370496))]%string.
Proof. vm_compute. reflexivity. Qed.

(** C7 (the code fails it). The members of the organisation are d,
    constructor, a and b, with the reviews of [ab_history].
    [reviewStates] is the empty object, yet for the login constructor
    [reviewStates[login] || 0] is the function [Object] that every object
    inherits.  The scores are then 0.3, [NaN], 0.346 and 0.47, the
    comparator answers [NaN] next to constructor, and the sort leaves d,
    constructor, b, a: d, with the lowest score, comes first.  With
    [count = 3] the tool returns d, constructor, b and leaves out a, whose
    score is higher than that of d.  No order of these four candidates is
    descending. *)
Theorem find_pr_buddy_inherited_member_unsorted :
  let details :=
    reviewerDetails (mkDetails pr42 [] [])
                    [mkUser "d" None; mkUser "constructor" None;
                     mkUser "a" None; mkUser "b" None]
                    ∅ ab_history ab_related in
  map pendingReviews details
    = [JSNumber 0; Inherited "constructor"; JSNumber 0; JSNumber 0] /\
  map score (map withScore details)
    = [Fin (5404319552844595 # 18014398509481984); FNaN;
       Fin (3116490942140383 # 9007199254740992);
       Fin (2116691824864133 # 4503599627370496)] /\
  map (fun x => rd_login (detail x)) (scoredReviewers None details)
    = ["d"; "constructor"; "b"; "a"]%string /\
  map (fun x => rd_login (detail x)) (scoredReviewers (Some 3) details)
    = ["d"; "constructor"; "b"]%string /\
  ~ StronglySorted score_ge (scoredReviewers None details) /\
  ~ StronglySorted score_ge (scoredReviewers (Some 3) details) /\
  (forall l, Permutation l (map withScore details) ->
             ~ StronglySorted score_ge l).
Proof.
  intros details.
  set (c := withScore (mkDetail "constructor" None (Inherited "constructor")
                                (mkStats 0 0 0 "" 0) [])).
  set (d := withScore (mkDetail "d" None 0 (mkStats 0 0 0 "" 0) [])).
  assert (forall l, In c l -> In d l -> ~ StronglySorted score_ge l) as Hno.
  { intros l Hc Hd Hs.
    destruct (sorted_related _ _ _ _ Hs Hc Hd) as [E|[E|E]];
      vm_compute in E; discriminate. }
  split; [vm_compute; reflexivity|].
  split; [vm_compute; reflexivity|].
  split; [vm_compute; reflexivity|].
  split; [vm_compute; reflexivity|].
  split; [apply Hno; vm_compute; auto|].
  split; [apply Hno; vm_compute; auto|].
  intros l Hp.
  apply Hno; apply (Permutation_in _ (Permutation_sym Hp)); vm_compute; auto.
Qed.

(** ** Cache keys *)

Lemma append_cancel_l (s a b : string) : s +:+ a = s +:+ b -> a = b.
Proof. induction s as [|c s IH]; simpl; [auto | intros [= H]; auto]. Qed.

(** A decimal numeral starts with no letter. *)
Lemma pretty_N_go_not_letter (x : N) (c : ascii) (s s' : string) :
  is_digit c = false ->
  s <> String c s' -> pretty_N_go x s <> String c s'.
Proof.
  intros Hc. revert s. induction (N.lt_wf_0 x) as [x _ IH]. intros s Hs.
  destruct (N.eq_dec x 0%N) as [->|Hx].
  - now rewrite pretty_N_go_0.
  - rewrite pretty_N_go_step by lia.
    apply IH; [apply N.div_lt; lia|].
    intros [= E _]. revert Hc. rewrite <- E. unfold pretty_N_char.
    repeat case_match; discriminate.
Qed.

Lemma pretty_not_letter (n : N) (c : ascii) (s' : string) :
  is_digit c = false -> pretty n <> String c s'.
Proof.
  intros Hc. unfold pretty, pretty_N.
  destruct (decide (n = 0)%N).
  - intros [= E _]. rewrite <- E in Hc. discriminate.
  - apply pretty_N_go_not_letter; [exact Hc | discriminate].
Qed.

Lemma toString_inj (n m : number) : toString n = toString m -> n = m.
Proof.
  destruct n as [|n|], m as [|m|]; simpl; intros H;
    try reflexivity; try discriminate;
    try (exfalso; revert H; now apply pretty_not_letter);
    try (exfalso; symmetry in H; revert H; now apply pretty_not_letter).
  f_equal. now apply (inj pretty).
Qed.

Lemma getReviewsCacheKey_inj o r n m :
  getReviewsCacheKey o r n = getReviewsCacheKey o r m -> n = m.
Proof.
  unfold getReviewsCacheKey. intros H.
  do 5 apply append_cancel_l in H. now apply toString_inj.
Qed.

Lemma getFilesCacheKey_inj o r n m :
  getFilesCacheKey o r n = getFilesCacheKey o r m -> n = m.
Proof.
  unfold getFilesCacheKey. intros H.
  do 5 apply append_cancel_l in H. now apply toString_inj.
Qed.

(** ** The read-through accessors keep the caches coherent *)

(** After [set(key, v)], possibly preceded by the eviction of [key], an
    entry is the new one or an entry that was there before. *)
Lemma lookup_set_inv {T} (m : gmap string (Cache.Cache T)) key v now key' e :
  <[key := Cache.mkCache v now]> m !! key' = Some e ->
  (key' = key /\ Cache.data e = v) \/ m !! key' = Some e.
Proof.
  rewrite lookup_insert_Some. intros [[<- <-]|[_ H]]; auto.
Qed.

Lemma lookup_evict_set_inv {T} (m : gmap string (Cache.Cache T))
      key v now key' e :
  <[key := Cache.mkCache v now]> (delete key m) !! key' = Some e ->
  (key' = key /\ Cache.data e = v) \/ m !! key' = Some e.
Proof.
  intros H. apply lookup_set_inv in H as [H|H]; [now left|right].
  apply lookup_delete_Some in H. tauto.
Qed.

Lemma coherent_tick octokit o r st :
  coherent octokit o r st -> coherent octokit o r (tick st).
Proof. intros H. exact H. Qed.

Ltac cached_cases E :=
  unfold cached, bind, cacheGet, cacheSet, await, ret; cbn [view update
    pullRequestsCacheRef reviewsCacheRef filesCacheRef];
  match goal with
  | |- context [Cache.cache ?c !! ?k] =>
      destruct (Cache.cache c !! k) as [?e|] eqn:E;
      [unfold Cache.get; rewrite E;
       destruct (_ >? _) | ]
  end.

Lemma fetchReviews_coherent env octokit o r n v st :
  coherent octokit o r st ->
  pulls_listReviews octokit o r n = Return v ->
  exists st',
    fetchReviews env octokit o r n st = (Return v, st') /\
    coherent octokit o r st'.
Proof.
  intros (Hp & Hr & Hf) Hv. unfold fetchReviews.
  cached_cases E; rewrite ?Hv.
  - eexists; split; [reflexivity|].
    split; [|split]; cbn; auto.
    intros n' c Hc. apply lookup_evict_set_inv in Hc as [[Hk <-]|Hc]; eauto.
    apply getReviewsCacheKey_inj in Hk. now inversion Hk; subst.
  - pose proof (Hr _ _ E) as Hd. rewrite Hv in Hd. injection Hd as ->.
    eexists; split; [reflexivity|]. split; [|split]; cbn; auto.
  - eexists; split; [reflexivity|].
    split; [|split]; cbn; auto.
    intros n' c Hc. apply lookup_set_inv in Hc as [[Hk <-]|Hc]; eauto.
    apply getReviewsCacheKey_inj in Hk. now inversion Hk; subst.
Qed.

Lemma fetchFiles_coherent env octokit o r n v st :
  coherent octokit o r st ->
  pulls_listFiles octokit o r n = Return v ->
  exists st',
    fetchFiles env octokit o r n st = (Return v, st') /\
    coherent octokit o r st'.
Proof.
  intros (Hp & Hr & Hf) Hv. unfold fetchFiles.
  cached_cases E; rewrite ?Hv.
  - eexists; split; [reflexivity|].
    split; [|split]; cbn; auto.
    intros n' c Hc. apply lookup_evict_set_inv in Hc as [[Hk <-]|Hc]; eauto.
    apply getFilesCacheKey_inj in Hk. now subst.
  - pose proof (Hf _ _ E) as Hd. rewrite Hv in Hd. injection Hd as ->.
    eexists; split; [reflexivity|]. split; [|split]; cbn; auto.
  - eexists; split; [reflexivity|].
    split; [|split]; cbn; auto.
    intros n' c Hc. apply lookup_set_inv in Hc as [[Hk <-]|Hc]; eauto.
    apply getFilesCacheKey_inj in Hk. now subst.
Qed.

Lemma fetchPullRequests_coherent env octokit o r v st :
  coherent octokit o r st ->
  pulls_list octokit o r AllByUpdatedDesc100 = Return v ->
  exists st',
    fetchPullRequests env octokit o r st = (Return v, st') /\
    coherent octokit o r st'.
Proof.
  intros (Hp & Hr & Hf) Hv. unfold fetchPullRequests.
  cached_cases E; rewrite ?Hv.
  - eexists; split; [reflexivity|].
    split; [|split]; cbn; auto.
    intros c Hc. apply lookup_evict_set_inv in Hc as [[_ <-]|Hc]; auto.
    rewrite E in Hc. auto.
  - pose proof (Hp _ eq_refl) as Hd. rewrite Hv in Hd. injection Hd as ->.
    eexists; split; [reflexivity|]. split; [|split]; cbn; auto.
    intros c Hc. rewrite E in Hc. auto.
  - eexists; split; [reflexivity|].
    split; [|split]; cbn; auto.
    intros c Hc. apply lookup_set_inv in Hc as [[_ <-]|Hc]; auto.
    rewrite E in Hc. auto.
Qed.

Lemma coherent_initial octokit o r : coherent octokit o r initial_state.
Proof.
  split; [|split]; cbn; intros; rewrite lookup_empty in *; discriminate.
Qed.

(** ** [calculateRelatedFileExperience] *)

(** The [Set] test is the list test. *)
Lemma currentFiles_has (fs : list File) (x : string) :
  bool_decide (x ∈ (list_to_set (map filename fs) : gset string))
  = existsb (fun g => (x =? filename g)%string) fs.
Proof.
  apply eq_true_iff_eq. rewrite bool_decide_eq_true, elem_of_list_to_set.
  rewrite list_elem_of_In, in_map_iff, existsb_exists.
  split; intros [g [H1 H2]]; exists g.
  - split; [exact H2 | now apply String.eqb_eq].
  - apply String.eqb_eq in H2. auto.
Qed.

Lemma related_to_spec reviewsOf filesOf R target p :
  related_to reviewsOf filesOf R target p = true <->
  reviewed_pr reviewsOf R p /\ shares_file filesOf target p.
Proof.
  unfold related_to, reviewed_pr, shares_file.
  rewrite andb_true_iff, !existsb_exists. split.
  - intros [[review [Hin Hby]] [f [Hf Hg]]]. split.
    + unfold reviewed_by in Hby.
      destruct (review_user review) as [u|] eqn:Hu; [|discriminate].
      apply String.eqb_eq in Hby. eauto.
    + apply existsb_exists in Hg as [g' [Hg' Heq']].
      apply String.eqb_eq in Heq'. eauto.
  - intros [[review [u [Hin [Hu Hl]]]] [f [g [Hf [Hg Heq]]]]]. split.
    + exists review. split; [exact Hin|].
      unfold reviewed_by. rewrite Hu. now apply String.eqb_eq.
    + exists f. split; [exact Hf|]. apply existsb_exists.
      exists g. split; [exact Hg | now apply String.eqb_eq].
Qed.

Lemma existsb_currentFiles (target_files fs : list File) :
  existsb (fun f => bool_decide
             (filename f ∈ (list_to_set (map filename target_files)
                            : gset string))) fs
  = existsb (fun f => existsb (fun g => (filename f =? filename g)%string)
                              target_files) fs.
Proof.
  induction fs as [|f fs IH]; [reflexivity|].
  cbn [existsb]. now rewrite currentFiles_has, IH.
Qed.

Section RelatedFiles.
Variables (env : Env) (o r R : string) (target : number).
Variables (reviewsOf : N -> list Review) (filesOf : number -> list File).

Let answers := answers_for env o r R reviewsOf filesOf.

Lemma reviewed_pr_existsb p :
  existsb (reviewed_by R) (reviewsOf (pr_number p)) = true <->
  reviewed_pr reviewsOf R p.
Proof.
  unfold reviewed_pr, reviewed_by. rewrite existsb_exists. split.
  - intros [review [Hin Hby]].
    destruct (review_user review) as [u|] eqn:Hu; [|discriminate].
    apply String.eqb_eq in Hby. eauto.
  - intros [review [u [Hin [Hu Hl]]]]. exists review. rewrite Hu.
    split; [exact Hin | now apply String.eqb_eq].
Qed.

Lemma calculateRelatedFileExperience_pr_spec p n st :
  coherent (rest env) o r st -> answers p ->
  exists st',
    calculateRelatedFileExperience_pr env (rest env) o r R
      (list_to_set (map filename (filesOf target))) p n st
    = (Return (n + if related_to reviewsOf filesOf R target p
                   then 1 else 0)%nat, st') /\
    coherent (rest env) o r st'.
Proof.
  intros Hst [Hrev Hfiles].
  unfold calculateRelatedFileExperience_pr, bind, related_to.
  destruct (fetchReviews_coherent env _ _ _ _ _ _ Hst Hrev)
    as (st1 & -> & Hst1).
  destruct (existsb (reviewed_by R) (reviewsOf (pr_number p))) eqn:Hby.
  - apply reviewed_pr_existsb in Hby.
    destruct (fetchFiles_coherent env _ _ _ _ _ _ Hst1 (Hfiles Hby))
      as (st2 & -> & Hst2).
    rewrite existsb_currentFiles. cbn [andb].
    destruct (existsb _ (filesOf (Num (pr_number p))));
      exists st2; (split; [unfold ret; f_equal; f_equal; lia | exact Hst2]).
  - exists st1. cbn [andb]. split; [unfold ret; f_equal; f_equal; lia|].
    exact Hst1.
Qed.

Lemma calculateRelatedFileExperience_loop prs n st :
  coherent (rest env) o r st ->
  (forall p, In p prs -> answers p) ->
  exists st',
    for_of prs
      (calculateRelatedFileExperience_pr env (rest env) o r R
         (list_to_set (map filename (filesOf target)))) n st
    = (Return (n + List.length
                     (List.filter (related_to reviewsOf filesOf R target)
                                  prs))%nat, st') /\
    coherent (rest env) o r st'.
Proof.
  revert n st. induction prs as [|p prs IH]; intros n st Hst Hprs.
  - exists st. cbn. unfold ret. split; [f_equal; f_equal; lia | exact Hst].
  - cbn [for_of List.filter]. unfold bind at 1.
    destruct (calculateRelatedFileExperience_pr_spec p n st Hst
                (Hprs p (or_introl eq_refl))) as (st1 & -> & Hst1).
    destruct (IH (n + if related_to reviewsOf filesOf R target p
                      then 1 else 0)%nat st1 Hst1
                 (fun q Hq => Hprs q (or_intror Hq))) as (st2 & -> & Hst2).
    exists st2. split; [|exact Hst2].
    destruct (related_to reviewsOf filesOf R target p); cbn [List.length];
      f_equal; f_equal; lia.
Qed.

Lemma calculateRelatedFileExperience_spec prs st :
  getOctokit env = Return (rest env) ->
  coherent (rest env) o r st ->
  pulls_listFiles (rest env) o r target = Return (filesOf target) ->
  pulls_list (rest env) o r AllByUpdatedDesc100 = Return prs ->
  (forall p, In p prs -> answers p) ->
  exists st',
    calculateRelatedFileExperience env o r target R st
    = (Return (List.length
                 (List.filter (related_to reviewsOf filesOf R target) prs)),
       st') /\
    coherent (rest env) o r st'.
Proof.
  intros Hoct Hst Htarget Hlist Hprs.
  unfold calculateRelatedFileExperience, bind, await. rewrite Hoct.
  destruct (fetchFiles_coherent env _ _ _ _ _ _ Hst Htarget)
    as (st1 & -> & Hst1).
  destruct (fetchPullRequests_coherent env _ _ _ _ _ Hst1 Hlist)
    as (st2 & -> & Hst2).
  exact (calculateRelatedFileExperience_loop prs 0 st2 Hst2 Hprs).
Qed.

End RelatedFiles.

(** C6. With caches that hold the API's answers, for every reviewer [R]
    and target pull request, [calculateRelatedFileExperience] returns the
    number of entries of the fetched pull-request list (each entry counted
    once or not at all, the target itself included) that have a review
    written by [R] and a changed file name in common with the target's
    files; a pull request whose files are disjoint from the target's is not
    counted. *)
Theorem calculateRelatedFileExperience_counts :
  forall (env : Env) (o r R : string) (target : number)
         (reviewsOf : N -> list Review) (filesOf : number -> list File)
         (prs : list PullRequest) (st : State),
    getOctokit env = Return (rest env) ->
    coherent (rest env) o r st ->
    pulls_listFiles (rest env) o r target = Return (filesOf target) ->
    pulls_list (rest env) o r AllByUpdatedDesc100 = Return prs ->
    (forall p, In p prs -> answers_for env o r R reviewsOf filesOf p) ->
    (exists st',
        calculateRelatedFileExperience env o r target R st
        = (Return (List.length
                     (List.filter (related_to reviewsOf filesOf R target)
                                  prs)), st')) /\
    (forall p, related_to reviewsOf filesOf R target p = true <->
               reviewed_pr reviewsOf R p /\ shares_file filesOf target p) /\
    (forall p, target = Num (pr_number p) -> reviewed_pr reviewsOf R p ->
               filesOf target <> [] ->
               related_to reviewsOf filesOf R target p = true) /\
    (forall p,
        (forall f g, In f (filesOf (Num (pr_number p))) ->
                     In g (filesOf target) -> filename f <> filename g) ->
        related_to reviewsOf filesOf R target p = false).
Proof.
  intros env o r R target reviewsOf filesOf prs st Hoct Hst Ht Hl Hprs.
  split; [|split; [|split]].
  - destruct (calculateRelatedFileExperience_spec env o r R target
                reviewsOf filesOf prs st Hoct Hst Ht Hl Hprs)
      as (st' & Hrun & _).
    now exists st'.
  - intros p. apply related_to_spec.
  - intros p -> Hrev Hne. apply related_to_spec. split; [exact Hrev|].
    destruct (filesOf (Num (pr_number p))) as [|f fs] eqn:Hfs;
      [contradiction|].
    exists f, f. unfold shares_file. rewrite Hfs. simpl. auto.
  - intros p Hdisj.
    destruct (related_to reviewsOf filesOf R target p) eqn:E;
      [|reflexivity].
    apply related_to_spec in E as [_ (f & g & Hf & Hg & Heq)].
    now destruct (Hdisj f g Hf Hg).
Qed.

Lemma calculateRelatedFileExperience_counts_witness :
  exists st',
    calculateRelatedFileExperience overlap_env "acme" "widgets" (Num 1)
      "carol" initial_state
    = (Return 1%nat, st').
Proof.
  refine (proj1 (calculateRelatedFileExperience_counts overlap_env
                   "acme" "widgets" "carol" (Num 1)
                   overlap_reviews overlap_files [prA; prB; prC]
                   initial_state _ _ _ _ _)).
  - reflexivity.
  - apply coherent_initial.
  - reflexivity.
  - reflexivity.
  - intros p _. split; reflexivity.
Defined.

(** dave reviewed only pull request 3, whose files are disjoint from those
    of pull request 1: nothing is counted. *)
Example calculateRelatedFileExperience_disjoint :
  fst (calculateRelatedFileExperience overlap_env "acme" "widgets" (Num 1)
         "dave" initial_state) = Return 0%nat.
Proof. vm_compute. reflexivity. Qed.

(** With pull request 2 as the target, carol's review of pull request 2
    itself is counted. *)
Example calculateRelatedFileExperience_self_match :
  fst (calculateRelatedFileExperience overlap_env "acme" "widgets" (Num 2)
         "carol" initial_state) = Return 1%nat.
Proof. vm_compute. reflexivity. Qed.

(** ** [getReviewHistory] *)

Section ReviewHistory.
Variables (env : Env) (o r R : string) (since : Z).
Variable reviewsOf : N -> list Review.




End ReviewHistory.



(** ** Strings *)

Lemma app_cons c s t : String c s +:+ t = String c (s +:+ t).
Proof. reflexivity. Qed.

Lemma app_nil_r s : s +:+ "" = s.
Proof. induction s as [|c s IH]; [reflexivity|]. now rewrite app_cons, IH. Qed.

Lemma app_assoc' s t u : (s +:+ t) +:+ u = s +:+ (t +:+ u).
Proof.
  induction s as [|c s IH]; [reflexivity|]. now rewrite !app_cons, IH.
Qed.

Lemma length_app' s t :
  String.length (s +:+ t) = (String.length s + String.length t)%nat.
Proof.
  induction s as [|c s IH]; [reflexivity|]. rewrite app_cons. cbn. now rewrite IH.
Qed.

Lemma substring_0_app o rest :
  substring 0 (String.length o) (o +:+ rest) = o.
Proof.
  induction o as [|c o IH].
  - cbn. now destruct ("" +:+ rest)%string.
  - rewrite app_cons. cbn. now rewrite IH.
Qed.

Lemma consumed_app o rest : consumed (o +:+ rest) rest = o.
Proof.
  unfold consumed. rewrite length_app'.
  replace (String.length o + String.length rest - String.length rest)%nat
    with (String.length o) by lia.
  apply substring_0_app.
Qed.

Lemma prefix_app w s : String.prefix w (w +:+ s) = true.
Proof.
  induction w as [|c w IH]; [now destruct s|].
  rewrite app_cons. cbn. destruct (ascii_dec c c); [exact IH | contradiction].
Qed.

(** ** The matcher on the constructs of the pattern *)

Section Exec.
Context {X : Type}.
Implicit Types (k : string -> list string -> option X) (caps : list string).

Lemma exec_seq r1 r2 s caps k :
  exec (Seq r1 r2) s caps k
  = exec r1 s caps (fun s1 caps1 => exec r2 s1 caps1 k).
Proof. reflexivity. Qed.

Lemma exec_lit_app w r s caps k :
  exec (lit w r) (w +:+ s) caps k = exec r s caps k.
Proof.
  induction w as [|c w IH]; [reflexivity|].
  rewrite app_cons. cbn [lit exec]. now rewrite Ascii.eqb_refl.
Qed.

Lemma exec_lit_inv w r s caps k x :
  exec (lit w r) s caps k = Some x ->
  exists s', s = w +:+ s' /\ exec r s' caps k = Some x.
Proof.
  revert s. induction w as [|c w IH]; intros s H.
  - now exists s.
  - cbn [lit exec] in H. destruct s as [|c' s]; [discriminate|].
    destruct (Ascii.eqb_spec c c') as [<-|]; [|discriminate].
    apply IH in H as [s' [-> H]]. now exists s'.
Qed.

Lemma plus_loop_stops {Y} p rest (k : string -> option Y) :
  stops p rest -> plus_loop p rest k = None.
Proof. destruct rest as [|c rest]; cbn; [reflexivity | now intros ->]. Qed.

(** Greedy: the whole run of class characters is tried first. *)
Lemma plus_loop_greedy {Y} p o rest (k : string -> option Y) y :
  o <> ""%string -> all_chars p o = true -> stops p rest ->
  k rest = Some y -> plus_loop p (o +:+ rest) k = Some y.
Proof.
  intros Hne Hall Hstop Hk. induction o as [|c o IH]; [contradiction|].
  cbn in Hall. apply andb_true_iff in Hall as [Hc Hall].
  rewrite app_cons. cbn [plus_loop]. rewrite Hc.
  destruct o as [|c' o].
  - change ("" +:+ rest)%string with rest.
    now rewrite (plus_loop_stops p rest k Hstop).
  - now rewrite IH.
Qed.

(** What a successful [class+] took: a non-empty run of the class, after
    which the continuation succeeded and no longer run was acceptable. *)
Lemma plus_loop_inv {Y} p s (k : string -> option Y) y :
  plus_loop p s k = Some y ->
  exists o rest,
    s = o +:+ rest /\ o <> ""%string /\ all_chars p o = true /\
    k rest = Some y /\ plus_loop p rest k = None.
Proof.
  induction s as [|c s IH]; [discriminate|].
  cbn [plus_loop]. destruct (p c) eqn:Hc; [|discriminate].
  destruct (plus_loop p s k) as [y'|] eqn:Hrec.
  - intros [= ->]. destruct (IH eq_refl) as (o & rest & -> & _ & Hall & Hk & Hn).
    exists (String c o), rest. rewrite app_cons. cbn. rewrite Hc, Hall.
    repeat split; auto; discriminate.
  - intros Hk. exists (String c ""), s. cbn. rewrite Hc.
    repeat split; auto; discriminate.
Qed.

Lemma plus_loop_None_total {Y} p rest (k : string -> option Y) :
  (forall s', k s' <> None) -> plus_loop p rest k = None -> stops p rest.
Proof.
  intros Hk. destruct rest as [|c rest]; cbn; [trivial|].
  destruct (p c); [|reflexivity].
  destruct (plus_loop p rest k); [discriminate|].
  intros H. now apply Hk in H.
Qed.

Lemma exec_group_plus_greedy p o rest caps k x :
  o <> ""%string -> all_chars p o = true -> stops p rest ->
  k rest (caps ++ [o]) = Some x ->
  exec (Group (Plus p)) (o +:+ rest) caps k = Some x.
Proof.
  intros Hne Hall Hstop Hk. cbn [exec].
  apply plus_loop_greedy; auto. now rewrite consumed_app.
Qed.

Lemma exec_group_plus_inv p s caps k x :
  exec (Group (Plus p)) s caps k = Some x ->
  exists o rest,
    s = o +:+ rest /\ o <> ""%string /\ all_chars p o = true /\
    k rest (caps ++ [o]) = Some x /\
    ((forall s' c', k s' c' <> None) -> stops p rest).
Proof.
  cbn [exec]. intros H.
  apply plus_loop_inv in H as (o & rest & -> & Hne & Hall & Hk & Hnone).
  rewrite consumed_app in Hk.
  exists o, rest. repeat split; auto.
  intros Htot. eapply plus_loop_None_total; [|exact Hnone].
  intros s'. apply Htot.
Qed.

End Exec.

(** ** The pattern of [parsePullRequestUrl] *)

Lemma stops_slash rest : stops not_slash ("/" +:+ rest).
Proof. reflexivity. Qed.

(** After the scheme: [://github.com/], the two segments, [/pull/] and the
    longest numeral. *)
Lemma exec_path_complete o r d rest caps :
  segment o -> segment r -> numeral d -> no_digit_ahead rest ->
  exec pr_regex_path
       ("://github.com/" +:+ o +:+ "/" +:+ r +:+ "/pull/" +:+ d +:+ rest)
       caps (fun _ c => Some c)
  = Some (caps ++ [o; r; d]).
Proof.
  intros [Ho1 Ho2] [Hr1 Hr2] [Hd1 Hd2] Hrest. unfold pr_regex_path.
  rewrite exec_lit_app. cbn [exec].
  apply plus_loop_greedy; auto using stops_slash. rewrite consumed_app.
  rewrite exec_lit_app. cbn [exec].
  apply plus_loop_greedy; auto.
  { change ("/pull/" +:+ d +:+ rest)%string
      with ("/" +:+ ("pull/" +:+ d +:+ rest))%string. apply stops_slash. }
  rewrite consumed_app. rewrite exec_lit_app. cbn [exec].
  apply plus_loop_greedy; auto. rewrite consumed_app.
  now rewrite <- !app_assoc.
Qed.

Lemma exec_path_inv s caps x :
  exec pr_regex_path s caps (fun _ c => Some c) = Some x ->
  exists o r d rest,
    s = ("://github.com/" +:+ o +:+ "/" +:+ r +:+ "/pull/" +:+ d +:+ rest)%string
    /\ segment o /\ segment r /\ numeral d /\ no_digit_ahead rest
    /\ x = caps ++ [o; r; d].
Proof.
  unfold pr_regex_path. intros H.
  apply exec_lit_inv in H as (s1 & -> & H). rewrite exec_seq in H.
  apply exec_group_plus_inv in H as (o & s2 & -> & Ho1 & Ho2 & H & _).
  apply exec_lit_inv in H as (s3 & -> & H). rewrite exec_seq in H.
  apply exec_group_plus_inv in H as (r & s4 & -> & Hr1 & Hr2 & H & _).
  apply exec_lit_inv in H as (s5 & -> & H).
  apply exec_group_plus_inv in H as (d & rest & -> & Hd1 & Hd2 & H & Hstop).
  injection H as <-.
  exists o, r, d, rest. unfold segment, numeral, no_digit_ahead.
  rewrite <- !app_assoc. repeat split; auto.
Qed.

Lemma match_here_complete s o r d :
  pr_url_here s o r d -> match_here pr_regex s = Some [o; r; d].
Proof.
  intros (sch & rest & -> & Hsch & Ho & Hr & Hd & Hrest).
  unfold match_here, pr_regex, pr_url. rewrite !app_assoc'.
  pose proof (exec_path_complete o r d rest [] Ho Hr Hd Hrest) as Hpath.
  destruct Hsch as [-> | ->].
  - rewrite exec_lit_app. cbn [exec]. rewrite app_cons.
    change (Ascii.eqb "s" ":") with false. cbn iota.
    rewrite <- app_cons. exact Hpath.
  - change ("https" +:+ ?t)%string with ("http" +:+ String "s" t)%string.
    rewrite exec_lit_app. cbn [exec].
    change (Ascii.eqb "s" "s") with true. cbn iota.
    now rewrite Hpath.
Qed.

Lemma match_here_inv s caps :
  match_here pr_regex s = Some caps ->
  exists o r d, caps = [o; r; d] /\ pr_url_here s o r d.
Proof.
  unfold match_here, pr_regex. intros H.
  apply exec_lit_inv in H as (s1 & -> & H). rewrite exec_seq in H.
  cbn [exec] in H.
  assert (exists sch s2,
             ("http" +:+ s1 = sch +:+ s2)%string /\ scheme sch /\
             exec pr_regex_path s2 [] (fun _ c => Some c) = Some caps)
    as (sch & s2 & Heq & Hsch & Hpath).
  { destruct s1 as [|c s1].
    - exists "http"%string, ""%string. unfold scheme. auto.
    - destruct (Ascii.eqb_spec "s" c) as [<-|Hc].
      + destruct (exec pr_regex_path s1 [] (fun _ c => Some c)) as [y|] eqn:E.
        * injection H as ->. exists "https"%string, s1.
          unfold scheme. auto.
        * exists "http"%string, (String "s" s1). unfold scheme. auto.
      + exists "http"%string, (String c s1). unfold scheme. auto. }
  rewrite Heq.
  apply exec_path_inv in Hpath
    as (o & r & d & rest & -> & Ho & Hr & Hd & Hrest & ->).
  exists o, r, d. split; [reflexivity|].
  exists sch, rest. unfold pr_url. rewrite !app_assoc'. auto 10.
Qed.

Lemma match_here_None s :
  match_here pr_regex s = None <-> forall o r d, ~ pr_url_here s o r d.
Proof.
  split.
  - intros Hnone o r d Hurl. apply match_here_complete in Hurl. congruence.
  - intros Hno. destruct (match_here pr_regex s) as [caps|] eqn:E;
      [|reflexivity].
    apply match_here_inv in E as (o & r & d & _ & Hurl).
    now destruct (Hno o r d).
Qed.

(** ** The leftmost match *)

Lemma str_match_unfold r s :
  str_match r s
  = match match_here r s with
    | Some caps => Some caps
    | None => match s with
              | String _ s' => str_match r s'
              | EmptyString => None
              end
    end.
Proof. destruct s; reflexivity. Qed.

Lemma str_match_app r pre t caps :
  match_here r t = Some caps ->
  (forall p1 p2, pre = p1 +:+ p2 -> p2 <> ""%string ->
                 match_here r (p2 +:+ t) = None) ->
  str_match r (pre +:+ t) = Some caps.
Proof.
  intros Hm. induction pre as [|c pre IH]; intros Hfirst.
  - change ("" +:+ t)%string with t. rewrite str_match_unfold. now rewrite Hm.
  - rewrite str_match_unfold.
    rewrite (Hfirst ""%string (String c pre) eq_refl) by discriminate.
    rewrite app_cons. apply IH.
    intros p1 p2 -> Hp2. now apply (Hfirst (String c p1) p2).
Qed.

Lemma str_match_None r s :
  str_match r s = None <->
  forall pre t, s = pre +:+ t -> match_here r t = None.
Proof.
  induction s as [|c s IH]; rewrite str_match_unfold.
  - split.
    + destruct (match_here r "") eqn:E; [discriminate|].
      intros _ pre t Heq. destruct pre; [|discriminate].
      change ("" +:+ t)%string with t in Heq. now subst t.
    + intros H. now rewrite (H ""%string ""%string eq_refl).
  - split.
    + destruct (match_here r (String c s)) eqn:E; [discriminate|].
      intros Hs pre t Heq. destruct pre as [|c' pre].
      * change ("" +:+ t)%string with t in Heq. now subst t.
      * rewrite app_cons in Heq. injection Heq as -> ->.
        now apply (proj1 IH Hs pre t).
    + intros H. rewrite (H ""%string (String c s) eq_refl).
      apply IH. intros pre t ->. now apply (H (String c pre) t).
Qed.

Lemma str_match_inv r s caps :
  str_match r s = Some caps ->
  exists pre t, s = pre +:+ t /\ match_here r t = Some caps.
Proof.
  induction s as [|c s IH]; rewrite str_match_unfold.
  - destruct (match_here r "") eqn:E; [|discriminate].
    intros [= ->]. now exists ""%string, ""%string.
  - destruct (match_here r (String c s)) eqn:E.
    + intros [= ->]. now exists ""%string, (String c s).
    + intros H. apply IH in H as (pre & t & -> & H).
      now exists (String c pre), t.
Qed.

Lemma no_match_before_first pre t :
  no_match_before pre t = true -> first_pr_url pre t.
Proof.
  induction pre as [|c pre IH]; intros Hcheck p1 p2 o r d Heq Hp2.
  - destruct p1; [|discriminate].
    change ("" +:+ p2)%string with p2 in Heq. congruence.
  - cbn [no_match_before] in Hcheck.
    destruct (match_here pr_regex (String c pre +:+ t)) eqn:E; [discriminate|].
    destruct p1 as [|c1 p1].
    + change ("" +:+ p2)%string with p2 in Heq. subst p2.
      now apply match_here_None.
    + rewrite app_cons in Heq. injection Heq as -> ->.
      now apply (IH Hcheck p1 p2).
Qed.

Lemma https_url_here_prefix s o r d :
  https_url_here s o r d -> String.prefix "https://github.com/" s = true.
Proof.
  intros (rest & -> & _). unfold pr_url. rewrite !app_assoc'.
  change ("https" +:+ "://github.com/" +:+ ?z)%string
    with ("https://github.com/" +:+ z)%string.
  apply prefix_app.
Qed.

Lemma no_https_before_first pre t :
  no_https_before pre t = true -> first_https_url pre t.
Proof.
  induction pre as [|c pre IH]; intros Hcheck p1 p2 o r d Heq Hp2.
  - destruct p1; [|discriminate].
    change ("" +:+ p2)%string with p2 in Heq. congruence.
  - cbn [no_https_before] in Hcheck.
    apply andb_true_iff in Hcheck as [Hhere Hcheck].
    destruct p1 as [|c1 p1].
    + change ("" +:+ p2)%string with p2 in Heq. subst p2.
      intros Hurl. apply https_url_here_prefix in Hurl.
      rewrite Hurl in Hhere. discriminate.
    + rewrite app_cons in Heq. injection Heq as -> ->.
      now apply (IH Hcheck p1 p2).
Qed.

Lemma parseInt10_numeral d :
  numeral d -> parseInt10 d = nearest_number (parse_digits 0 d).
Proof.
  intros [Hne Hall]. destruct d as [|c d]; [contradiction|].
  cbn in Hall. apply andb_true_iff in Hall as [Hc _].
  unfold parseInt10. now rewrite Hc.
Qed.

(** The function returns the groups of the leftmost pull-request URL. *)
Lemma parsePullRequestUrl_leftmost pre t o r d :
  pr_url_here t o r d -> first_pr_url pre t ->
  parsePullRequestUrl (pre +:+ t) = Some (mkParams o r (parseInt10 d)).
Proof.
  intros Hurl Hfirst. unfold parsePullRequestUrl.
  rewrite (str_match_app pr_regex pre t [o; r; d]).
  - reflexivity.
  - now apply match_here_complete.
  - intros p1 p2 Heq Hp2. apply match_here_None.
    intros o' r' d'. now apply (Hfirst p1 p2).
Qed.

Lemma parsePullRequestUrl_None s :
  parsePullRequestUrl s = None <-> ~ contains_pr_url s.
Proof.
  unfold parsePullRequestUrl, contains_pr_url. split.
  - destruct (str_match pr_regex s) eqn:E; [discriminate|]. intros _.
    intros (pre & t & o & r & d & Heq & Hurl).
    pose proof (proj1 (str_match_None pr_regex s) E pre t Heq) as Hnone.
    now apply (proj1 (match_here_None t) Hnone o r d).
  - intros Hno. destruct (str_match pr_regex s) as [caps|] eqn:E;
      [|reflexivity].
    exfalso. apply Hno.
    apply str_match_inv in E as (pre & t & -> & E).
    apply match_here_inv in E as (o & r & d & _ & Hurl).
    now exists pre, t, o, r, d.
Qed.

(** C9 (as stated, fails). A URL of the stated shape whose host is not
    github.com is not recognised:
    [https://gitlab.com/acme/widgets/pull/42] yields [null]. *)
Lemma parsePullRequestUrl_rejects_other_host :
  segment "gitlab.com" /\ segment "acme" /\ segment "widgets" /\
  numeral "42" /\
  parsePullRequestUrl
    ("https://" +:+ "gitlab.com" +:+ "/" +:+ "acme" +:+ "/" +:+ "widgets"
                +:+ "/pull/" +:+ "42")
  = None.
Proof.
  repeat split; try discriminate; vm_compute; reflexivity.
Qed.

Lemma parsePullRequestUrl_whole_url sch o r d :
  scheme sch -> segment o -> segment r -> numeral d ->
  parsePullRequestUrl (pr_url sch o r d)
  = Some (mkParams o r (nearest_number (parse_digits 0 d))).
Proof.
  intros Hsch Ho Hr Hd.
  rewrite <- (parseInt10_numeral d Hd).
  change (pr_url sch o r d) with ("" +:+ pr_url sch o r d)%string.
  apply parsePullRequestUrl_leftmost.
  - exists sch, ""%string. rewrite app_nil_r.
    unfold no_digit_ahead, stops. auto 10.
  - intros p1 p2 o' r' d' Heq Hp2.
    destruct p1; [|discriminate].
    change ("" +:+ p2)%string with p2 in Heq. congruence.
Qed.

(** C9 (amended). [parsePullRequestUrl] recognises the URLs
    [http://github.com/<owner>/<repo>/pull/<number>] and
    [https://github.com/<owner>/<repo>/pull/<number>] (the host is fixed),
    returning owner, repository and the number value of the numeral: its
    value up to 2^53, and beyond that the nearest double
    (9007199254740992 for 9007199254740993, [Infinity] for a numeral of
    310 digits); it is total, and it returns [null] exactly for the
    strings that contain no such URL;
    [https://github.com/acme/widgets/pull/42] gives acme, widgets, 42 and
    [https://github.com/acme/widgets/issues/42] gives [null]. *)
Theorem parsePullRequestUrl_github_urls :
  (forall sch o r d,
      scheme sch -> segment o -> segment r -> numeral d ->
      parsePullRequestUrl (pr_url sch o r d)
      = Some (mkParams o r (nearest_number (parse_digits 0 d))) /\
      ((parse_digits 0 d <= 2 ^ 53)%N ->
       parsePullRequestUrl (pr_url sch o r d)
       = Some (mkParams o r (Num (parse_digits 0 d))))) /\
  parsePullRequestUrl "https://github.com/a/b/pull/9007199254740993"
    = Some (mkParams "a" "b" (Num 9007199254740992)) /\
  nearest_number (10 ^ 309) = Infinity /\
  (forall s, parsePullRequestUrl s = None <-> ~ contains_pr_url s) /\
  parsePullRequestUrl "https://github.com/acme/widgets/pull/42"
    = Some (mkParams "acme" "widgets" (Num 42)) /\
  parsePullRequestUrl "https://github.com/acme/widgets/issues/42" = None.
Proof.
  split; [|split; [|split; [|split; [|split]]]].
  - intros sch o r d Hsch Ho Hr Hd.
    rewrite (parsePullRequestUrl_whole_url sch o r d) by assumption.
    split; [reflexivity|]. intros Hsmall.
    now rewrite nearest_number_exact.
  - vm_compute. reflexivity.
  - vm_compute. reflexivity.
  - exact parsePullRequestUrl_None.
  - vm_compute. reflexivity.
  - vm_compute. reflexivity.
Qed.

Lemma parsePullRequestUrl_github_urls_witness :
  parsePullRequestUrl (pr_url "http" "acme" "widgets" "42")
  = Some (mkParams "acme" "widgets" (Num 42)).
Proof.
  refine (proj2 (proj1 parsePullRequestUrl_github_urls
                       "http" "acme" "widgets" "42" _ _ _ _)%string _).
  - left. reflexivity.
  - split; [discriminate | reflexivity].
  - split; [discriminate | reflexivity].
  - split; [discriminate | reflexivity].
  - vm_compute. discriminate.
Defined.

(** C10 (as stated, fails). In
    [http://github.com/x/y/pull/9 https://github.com/a/b/pull/1] the first
    URL that starts with [https://github.com/] is the one of a/b number 1,
    yet the function returns x/y number 9: the pattern also accepts the
    scheme [http]. *)
Lemma parsePullRequestUrl_http_url_comes_first :
  https_url_here "https://github.com/a/b/pull/1" "a" "b" "1" /\
  first_https_url "http://github.com/x/y/pull/9 "
                  "https://github.com/a/b/pull/1" /\
  parsePullRequestUrl
    ("http://github.com/x/y/pull/9 " +:+ "https://github.com/a/b/pull/1")
    = Some (mkParams "x" "y" (Num 9)) /\
  parsePullRequestUrl
    ("http://github.com/x/y/pull/9 " +:+ "https://github.com/a/b/pull/1")
    <> Some (mkParams "a" "b" (parseInt10 "1")).
Proof.
  split; [|split; [|split]].
  - exists ""%string. repeat split; try discriminate; reflexivity.
  - apply no_https_before_first. vm_compute. reflexivity.
  - vm_compute. reflexivity.
  - vm_compute. discriminate.
Qed.

(** C10 (amended). [parsePullRequestUrl] matches anywhere in its input:
    for every string that contains [http://github.com/<owner>/<repo>/pull/
    <digits>] or [https://github.com/<owner>/<repo>/pull/<digits>],
    whatever precedes or follows it, the function returns the owner, the
    repository and the number of the leftmost such occurrence: the number
    value of the whole run of digits, which is its value up to 2^53 and
    the nearest double beyond (9007199254740992 for the digits
    9007199254740993). *)
Theorem parsePullRequestUrl_unanchored :
  (forall pre t o r d,
      pr_url_here t o r d -> first_pr_url pre t ->
      parsePullRequestUrl (pre +:+ t)
      = Some (mkParams o r (nearest_number (parse_digits 0 d))) /\
      ((parse_digits 0 d <= 2 ^ 53)%N ->
       parsePullRequestUrl (pre +:+ t)
       = Some (mkParams o r (Num (parse_digits 0 d))))) /\
  parsePullRequestUrl
    "see https://github.com/a/b/pull/9007199254740993/files for the diff"
  = Some (mkParams "a" "b" (Num 9007199254740992)).
Proof.
  split; [|vm_compute; reflexivity].
  intros pre t o r d Hurl Hfirst.
  assert (numeral d) as Hd
    by (destruct Hurl as (? & ? & ? & ? & ? & ? & ? & ?); assumption).
  assert (parsePullRequestUrl (pre +:+ t)
          = Some (mkParams o r (nearest_number (parse_digits 0 d)))) as E.
  { rewrite <- (parseInt10_numeral d Hd).
    now apply parsePullRequestUrl_leftmost. }
  split; [exact E|]. intros Hsmall. rewrite E.
  now rewrite nearest_number_exact.
Qed.

Lemma parsePullRequestUrl_unanchored_witness :
  parsePullRequestUrl
    "see https://github.com/acme/widgets/pull/42/files for the diff"
  = Some (mkParams "acme" "widgets" (Num 42)).
Proof.
  refine (proj2 (proj1 parsePullRequestUrl_unanchored
            "see " "https://github.com/acme/widgets/pull/42/files for the diff"
            "acme" "widgets" "42" _ _)%string _).
  - exists "https"%string, "/files for the diff"%string.
    repeat split; try discriminate; auto. right. reflexivity.
  - apply no_match_before_first. vm_compute. reflexivity.
  - vm_compute. discriminate.
Defined.

(** * Further properties of the code *)

(** ** The cache: overwriting, other keys, freshness, clearing *)

(** X1. Setting a key twice is the same as setting it once with the later
    value and time: the first value and its timestamp leave no trace, and a
    read is judged by the second timestamp alone. *)
Theorem cache_set_overwrites :
  forall (T : Type) (s : Cache.CacheStore T) (k : string) (v1 v2 : T)
         (t1 t2 now : Z),
    Cache.set t2 k v2 (Cache.set t1 k v1 s) = Cache.set t2 k v2 s /\
    fst (Cache.get now k (Cache.set t2 k v2 (Cache.set t1 k v1 s)))
    = if now - t2 >? Cache.ttl s then None else Some v2.
Proof.
  intros T s k v1 v2 t1 t2 now.
  assert (Cache.set t2 k v2 (Cache.set t1 k v1 s) = Cache.set t2 k v2 s) as E.
  { unfold Cache.set. cbn. f_equal. apply insert_insert_eq. }
  split; [exact E|]. rewrite E. unfold Cache.get.
  rewrite cache_lookup_set. cbn. now destruct (_ >? _).
Qed.

(** X2. Operations on one key leave every other key alone: a [get] or a
    [set] of [k] changes no entry under another key [k'], and what a [get]
    of [k'] answers does not depend on a [set] of [k]. *)
Theorem cache_other_keys_untouched :
  forall (T : Type) (s : Cache.CacheStore T) (k k' : string) (v : T)
         (t now now' : Z),
    k <> k' ->
    Cache.cache (snd (Cache.get now k s)) !! k' = Cache.cache s !! k' /\
    Cache.cache (Cache.set t k v s) !! k' = Cache.cache s !! k' /\
    fst (Cache.get now' k' (Cache.set t k v s)) = fst (Cache.get now' k' s).
Proof.
  intros T s k k' v t now now' Hne. split; [|split].
  - unfold Cache.get. destruct (Cache.cache s !! k) as [c|]; [|reflexivity].
    destruct (_ >? _); [|reflexivity]. cbn. now apply lookup_delete_ne.
  - unfold Cache.set. cbn. now apply lookup_insert_ne.
  - unfold Cache.get, Cache.set. cbn. rewrite lookup_insert_ne by exact Hne.
    destruct (Cache.cache s !! k') as [c|]; [|reflexivity].
    now destruct (_ >? _).
Qed.

Lemma cache_other_keys_untouched_witness :
  fst (Cache.get 10 "files:a:b:1"
         (Cache.set 5 "pr:a:b" 3%nat (Cache.set 0 "files:a:b:1" 7%nat
                                        (Cache.new None))))
  = fst (Cache.get 10 "files:a:b:1"
           (Cache.set 0 "files:a:b:1" 7%nat (Cache.new None))).
Proof.
  refine (proj2 (proj2 (cache_other_keys_untouched nat _ "pr:a:b"
                          "files:a:b:1" 3%nat 5 0 10 _))).
  discriminate.
Defined.

(** X3. [get] never hands out a value older than the ttl: when it returns a
    value, the store holds that value under the key with an age of at most
    [ttl], and the store is left as it was. *)
Theorem cache_get_returns_fresh_only :
  forall (T : Type) (s s' : Cache.CacheStore T) (k : string) (v : T) (now : Z),
    Cache.get now k s = (Some v, s') ->
    s' = s /\
    exists c, Cache.cache s !! k = Some c /\ Cache.data c = v /\
              now - Cache.timestamp c <= Cache.ttl s.
Proof.
  intros T s s' k v now. unfold Cache.get.
  destruct (Cache.cache s !! k) as [c|] eqn:E; [|discriminate].
  destruct (Z.gtb_spec (now - Cache.timestamp c) (Cache.ttl s));
    [discriminate|].
  intros [= <- <-]. split; [reflexivity|]. exists c. auto.
Qed.

Lemma cache_get_returns_fresh_only_witness :
  exists c,
    Cache.cache (Cache.set 100 "pr:a:b" 7%nat (Cache.new None)) !! "pr:a:b"
      = Some c /\
    Cache.data c = 7%nat /\ 200 - Cache.timestamp c <= 300000.
Proof.
  refine (proj2 (cache_get_returns_fresh_only nat
                   (Cache.set 100 "pr:a:b" 7%nat (Cache.new None)) _
                   "pr:a:b" 7%nat 200 _)).
  vm_compute. reflexivity.
Defined.

(** X4. [clear] empties the store and keeps the ttl: afterwards every [get]
    is a miss that leaves the store empty. *)
Theorem cache_clear_empties :
  forall (T : Type) (s : Cache.CacheStore T) (k : string) (now : Z),
    Cache.get now k (Cache.clear s) = (None, Cache.clear s) /\
    size (Cache.cache (Cache.clear s)) = 0%nat /\
    Cache.ttl (Cache.clear s) = Cache.ttl s.
Proof.
  intros T s k now. split; [|split].
  - apply cache_get_miss. apply lookup_empty.
  - apply map_size_empty.
  - reflexivity.
Qed.

(** X5. A [get] never adds or alters an entry and never changes the ttl;
    reading the same key twice at the same instant answers, and leaves, the
    same as reading it once. *)
Theorem cache_get_only_evicts :
  forall (T : Type) (s : Cache.CacheStore T) (k : string) (now : Z),
    Cache.cache (snd (Cache.get now k s)) ⊆ Cache.cache s /\
    Cache.ttl (snd (Cache.get now k s)) = Cache.ttl s /\
    Cache.get now k (snd (Cache.get now k s)) = Cache.get now k s.
Proof.
  intros T s k now. unfold Cache.get.
  destruct (Cache.cache s !! k) as [c|] eqn:E.
  - destruct (now - Cache.timestamp c >? Cache.ttl s) eqn:Hage; cbn.
    + split; [apply delete_subseteq|]. split; [reflexivity|].
      now rewrite lookup_delete_eq.
    + split; [reflexivity|]. split; [reflexivity|]. now rewrite E, Hage.
  - cbn. split; [reflexivity|]. split; [reflexivity|]. now rewrite E.
Qed.

(** ** Cache keys across repositories *)

Lemma app_nil_l s : ("" +:+ s)%string = s.
Proof. reflexivity. Qed.

Lemma split_at_colon a a' b b' :
  colon_free a -> colon_free a' ->
  (a +:+ ":" +:+ b = a' +:+ ":" +:+ b')%string -> a = a' /\ b = b'.
Proof.
  unfold colon_free. revert a'.
  induction a as [|c a IH]; intros [|c' a'] Ha Ha' H;
    rewrite ?app_nil_l, ?app_cons, ?app_nil_l in H.
  - injection H as <-. auto.
  - injection H as <- _. cbn in Ha'. discriminate.
  - injection H as -> _. cbn in Ha. discriminate.
  - injection H as <- H.
    cbn in Ha, Ha'. apply andb_true_iff in Ha as [_ Ha].
    apply andb_true_iff in Ha' as [_ Ha'].
    destruct (IH a' Ha Ha' H) as [<- <-]. auto.
Qed.

(** X6. For owner and repository names without a colon the cache keys are
    injective: two keys of the same kind are equal only for the same owner,
    repository and number, so one repository's entries are never read for
    another. *)
Theorem cache_keys_injective :
  forall (o r o' r' : string) (n n' : number),
    colon_free o -> colon_free r -> colon_free o' -> colon_free r' ->
    (getPRCacheKey o r = getPRCacheKey o' r' -> o = o' /\ r = r') /\
    (getReviewsCacheKey o r n = getReviewsCacheKey o' r' n' ->
     o = o' /\ r = r' /\ n = n') /\
    (getFilesCacheKey o r n = getFilesCacheKey o' r' n' ->
     o = o' /\ r = r' /\ n = n').
Proof.
  intros o r o' r' n n' Ho Hr Ho' Hr'.
  unfold getPRCacheKey, getReviewsCacheKey, getFilesCacheKey.
  split; [|split]; intros H.
  - apply append_cancel_l in H.
    now apply (split_at_colon o o' r r').
  - apply append_cancel_l in H.
    apply (split_at_colon o o') in H as [<- H]; auto.
    apply (split_at_colon r r') in H as [<- H]; auto.
    apply toString_inj in H. auto.
  - apply append_cancel_l in H.
    apply (split_at_colon o o') in H as [<- H]; auto.
    apply (split_at_colon r r') in H as [<- H]; auto.
    apply toString_inj in H. auto.
Qed.

Lemma cache_keys_injective_witness :
  getFilesCacheKey "acme" "widgets" (Num 1)
  <> getFilesCacheKey "acme" "gadgets" (Num 1).
Proof.
  intros H.
  apply (proj2 (proj2 (cache_keys_injective "acme" "widgets" "acme" "gadgets"
                         (Num 1) (Num 1) eq_refl eq_refl eq_refl eq_refl)))
    in H.
  destruct H as [_ [H _]]. discriminate H.
Defined.

(** With a colon in a name two repositories do share a key. *)
Example cache_key_collision :
  getPRCacheKey "a:b" "c" = getPRCacheKey "a" "b:c".
Proof. reflexivity. Qed.

(** ** [parsePullRequestUrl]: what it returns, and printing a number back *)

Lemma round64_number x : round64 x <> FNaN.
Proof.
  unfold round64, round_pos.
  destruct (x ?= 0)%Q; [discriminate | |];
    destruct (Qle_bool _ _); discriminate.
Qed.

Lemma nearest_number_not_NaN n : nearest_number n <> NaN.
Proof.
  unfold nearest_number. pose proof (round64_number (inject_Z (Z.of_N n))).
  destruct (round64 _); [contradiction | discriminate..].
Qed.

(** X7. Whatever [parsePullRequestUrl] returns is well formed: owner and
    repository are non-empty and without a slash, the number is the number
    value of a numeral (never [NaN]; the value of the numeral when that is
    at most 2^53), and the three occur in the input as a pull-request URL
    of github.com. *)
Theorem parsePullRequestUrl_well_formed :
  forall (s : string) (p : PullRequestParams),
    parsePullRequestUrl s = Some p ->
    segment (owner p) /\ segment (repo p) /\
    pullNumber p <> NaN /\
    exists d,
      numeral d /\ pullNumber p = nearest_number (parse_digits 0 d) /\
      ((parse_digits 0 d <= 2 ^ 53)%N ->
       pullNumber p = Num (parse_digits 0 d)) /\
      exists pre t, s = (pre +:+ t)%string /\
                    pr_url_here t (owner p) (repo p) d.
Proof.
  intros s p. unfold parsePullRequestUrl.
  destruct (str_match pr_regex s) as [caps|] eqn:E; [|discriminate].
  apply str_match_inv in E as (pre & t & -> & E).
  apply match_here_inv in E as (o & r & d & -> & Hurl).
  intros [= <-]. cbn [owner repo pullNumber nth].
  pose proof Hurl as (sch & rest & _ & _ & Ho & Hr & Hd & _).
  rewrite (parseInt10_numeral d Hd).
  split; [exact Ho|]. split; [exact Hr|].
  split; [apply nearest_number_not_NaN|].
  exists d. split; [exact Hd|]. split; [reflexivity|].
  split; [apply nearest_number_exact|].
  now exists pre, t.
Qed.

Lemma parsePullRequestUrl_well_formed_witness :
  segment "acme" /\ segment "widgets" /\
  Num 42 <> NaN /\
  exists d,
    numeral d /\ Num 42 = nearest_number (parse_digits 0 d) /\
    ((parse_digits 0 d <= 2 ^ 53)%N -> Num 42 = Num (parse_digits 0 d)) /\
    exists pre t,
      "PR: http://github.com/acme/widgets/pull/42#top"%string
      = (pre +:+ t)%string /\
      pr_url_here t "acme" "widgets" d.
Proof.
  apply (parsePullRequestUrl_well_formed
           "PR: http://github.com/acme/widgets/pull/42#top"
           (mkParams "acme" "widgets" (Num 42))).
  vm_compute. reflexivity.
Defined.

Lemma pretty_N_char_digit (m : N) :
  (m < 10)%N ->
  is_digit (pretty_N_char m) = true /\
  (N_of_ascii (pretty_N_char m) - 48)%N = m.
Proof.
  intros Hm.
  assert (m = 0 \/ m = 1 \/ m = 2 \/ m = 3 \/ m = 4 \/ m = 5 \/ m = 6
          \/ m = 7 \/ m = 8 \/ m = 9)%N as H by lia.
  repeat (destruct H as [->|H]; [split; reflexivity|]).
  subst m. split; reflexivity.
Qed.

(** Reading back the digits [pretty] prints in front of [s]. *)
Lemma parse_digits_pretty_go (x : N) :
  exists k : N, forall s acc,
    parse_digits acc (pretty_N_go x s) = parse_digits (acc * k + x)%N s.
Proof.
  induction (N.lt_wf_0 x) as [x _ IH].
  destruct (N.eq_dec x 0%N) as [->|Hx].
  - exists 1%N. intros s acc. rewrite pretty_N_go_0. f_equal. lia.
  - destruct (IH (x `div` 10)%N) as [k Hk]; [apply N.div_lt; lia|].
    exists (10 * k)%N. intros s acc.
    rewrite pretty_N_go_step by lia. rewrite Hk.
    destruct (pretty_N_char_digit (x `mod` 10)%N) as [Hd Hv];
      [apply N.mod_lt; lia|].
    cbn [parse_digits]. rewrite Hd, Hv. f_equal.
    pose proof (N.div_mod x 10 ltac:(lia)). lia.
Qed.

Lemma pretty_N_go_digits (x : N) (s : string) :
  all_chars is_digit s = true -> all_chars is_digit (pretty_N_go x s) = true.
Proof.
  revert s. induction (N.lt_wf_0 x) as [x _ IH]. intros s Hs.
  destruct (N.eq_dec x 0%N) as [->|Hx].
  - now rewrite pretty_N_go_0.
  - rewrite pretty_N_go_step by lia.
    apply IH; [apply N.div_lt; lia|].
    cbn [all_chars]. rewrite Hs.
    destruct (pretty_N_char_digit (x `mod` 10)%N) as [-> _];
      [apply N.mod_lt; lia | reflexivity].
Qed.

Lemma pretty_N_go_nonempty (x : N) (s : string) :
  s <> ""%string -> pretty_N_go x s <> ""%string.
Proof.
  revert s. induction (N.lt_wf_0 x) as [x _ IH]. intros s Hs.
  destruct (N.eq_dec x 0%N) as [->|Hx].
  - now rewrite pretty_N_go_0.
  - rewrite pretty_N_go_step by lia.
    apply IH; [apply N.div_lt; lia | discriminate].
Qed.

Lemma numeral_toString (n : N) :
  numeral (toString (Num n)) /\ parse_digits 0 (toString (Num n)) = n.
Proof.
  cbn [toString]. unfold pretty, pretty_N.
  destruct (decide (n = 0%N)) as [->|Hn].
  - repeat split. discriminate.
  - split; [split|].
    + rewrite pretty_N_go_step by lia.
      apply pretty_N_go_nonempty. discriminate.
    + now apply pretty_N_go_digits.
    + destruct (parse_digits_pretty_go n) as [k Hk]. rewrite Hk.
      cbn. lia.
Qed.

(** X8. Round trip: the URL of a pull request whose number is an integer
    of at most 2^53, written with the number in decimal (as the template
    literals of the cache keys print it), parses back to the same owner,
    repository and number. *)
Theorem parsePullRequestUrl_roundtrip :
  forall (sch o r : string) (n : N),
    scheme sch -> segment o -> segment r -> (n <= 2 ^ 53)%N ->
    parsePullRequestUrl (pr_url sch o r (toString (Num n)))
    = Some (mkParams o r (Num n)).
Proof.
  intros sch o r n Hsch Ho Hr Hn.
  destruct (numeral_toString n) as [Hd Hv].
  rewrite (parsePullRequestUrl_whole_url sch o r _ Hsch Ho Hr Hd).
  rewrite Hv. now rewrite nearest_number_exact.
Qed.

Lemma parsePullRequestUrl_roundtrip_witness :
  parsePullRequestUrl (pr_url "https" "acme" "widgets" (toString (Num 1207)))
  = Some (mkParams "acme" "widgets" (Num 1207)).
Proof.
  apply parsePullRequestUrl_roundtrip.
  - right. reflexivity.
  - split; [discriminate | reflexivity].
  - split; [discriminate | reflexivity].
  - vm_compute. discriminate.
Defined.

(** ** Without a token, and the other failures *)

Lemma getOctokit_no_token env : no_token env -> getOctokit env = Throw TokenNotSet.
Proof. unfold getOctokit. now intros [-> | ->]. Qed.

(** X9. When [GITHUB_TOKEN] is unset or empty every accessor rejects with
    the token error before it calls the API or touches a cache: the caches
    are left exactly as they were (only the default [since] of
    [getReviewHistory] has read the clock by then). *)
Theorem accessors_need_token :
  forall (env : Env) (api : OrgApi) (o r R : string) (n : number)
         (params : option PullRequestParams) (since : Z) (st : State),
    no_token env ->
    getPullRequestByOwner env o = Throw TokenNotSet /\
    getReviewRequestsPerUser env o = Throw TokenNotSet /\
    getReviewBuddy env api o = Throw TokenNotSet /\
    getPullRequestDetails env params = Throw TokenNotSet /\
    calculateRelatedFileExperience env o r n R st = (Throw TokenNotSet, st) /\
    getReviewHistory env o r R (Some since) st = (Throw TokenNotSet, st) /\
    getReviewHistory env o r R None st = (Throw TokenNotSet, tick st).
Proof.
  intros env api o r R n params since st Hno.
  pose proof (getOctokit_no_token env Hno) as Htok.
  unfold getReviewRequestsPerUser, getPullRequestByOwner, getReviewBuddy,
    getPullRequestDetails, calculateRelatedFileExperience, getReviewHistory,
    bind, await, ret.
  rewrite Htok. cbn. repeat split.
Qed.

Lemma accessors_need_token_witness :
  getPullRequestDetails (mkEnv None acme (fun _ => 0) (fun _ => 0)) None
  = Throw TokenNotSet.
Proof.
  refine (proj1 (proj2 (proj2 (proj2
            (accessors_need_token (mkEnv None acme (fun _ => 0) (fun _ => 0))
               acme_org "acme" "widgets" "carol" (Num 1) None 0
               initial_state _))))).
  left. reflexivity.
Defined.

(** X10. What the three results of [getPullRequestDetails] mean.  Details
    are returned only when both lookups succeeded, and they hold the pull
    request [pulls.get] answered, the files [pulls.listFiles] answered and
    the requested reviewers (none when the field is absent).  [null] is
    returned only when [pulls.get] succeeded and [pulls.listFiles] failed.
    A rejection carries the token error, the invalid-URL error of a [null]
    argument, or the error of [pulls.get]. *)
Theorem getPullRequestDetails_results :
  forall (env : Env) (params : option PullRequestParams),
    (forall d,
        getPullRequestDetails env params = Return (Some d) ->
        exists p,
          params = Some p /\
          pulls_get (rest env) (owner p) (repo p) (pullNumber p)
            = Return (pr d) /\
          pulls_listFiles (rest env) (owner p) (repo p) (pullNumber p)
            = Return (files d) /\
          reviewers d = default [] (requested_reviewers (pr d))) /\
    (getPullRequestDetails env params = Return None ->
     exists p pr_ e,
       params = Some p /\
       pulls_get (rest env) (owner p) (repo p) (pullNumber p) = Return pr_ /\
       pulls_listFiles (rest env) (owner p) (repo p) (pullNumber p)
         = Throw e) /\
    (forall e,
        getPullRequestDetails env params = Throw e ->
        e = TokenNotSet \/ (params = None /\ e = InvalidUrl) \/
        exists p, params = Some p /\
                  pulls_get (rest env) (owner p) (repo p) (pullNumber p)
                    = Throw e).
Proof.
  intros env params. unfold getPullRequestDetails, getOctokit.
  destruct (GITHUB_TOKEN env) as [tok|];
    [destruct (tok =? "")%string|]; cbn [obind].
  2: destruct params as [p|]; cbn [obind].
  2: destruct (pulls_get (rest env) (owner p) (repo p) (pullNumber p))
       as [pr_|e0] eqn:Hget; cbn [obind].
  2: destruct (pulls_listFiles (rest env) (owner p) (repo p) (pullNumber p))
       as [fs|e1] eqn:Hfiles.
  all: repeat split; try discriminate.
  all: try (intros e [= <-]; auto; fail).
  - intros d [= <-]. exists p. cbn. auto.
  - intros _. now exists p, pr_, e1.
  - intros e [= <-]. right. right. now exists p.
Qed.

Lemma getPullRequestDetails_results_witness :
  exists p pr_ e,
    Some (mkParams "acme" "widgets" (Num 42)) = Some p /\
    pulls_get acme_rate_limited (owner p) (repo p) (pullNumber p)
      = Return pr_ /\
    pulls_listFiles acme_rate_limited (owner p) (repo p) (pullNumber p)
      = Throw e.
Proof.
  refine (proj1 (proj2 (getPullRequestDetails_results
            (mkEnv (Some "ghp_token"%string) acme_rate_limited
                   (fun _ => 0) (fun _ => 0))
            (Some (mkParams "acme" "widgets" (Num 42))))) _).
  reflexivity.
Defined.

(** ** [getReviewRequestsPerUser] and [getReviewBuddy] *)

(** X11. [getReviewRequestsPerUser] counts over the list
    [getPullRequestByOwner] returns, which is always empty: it fails exactly
    when the listing fails, and whenever it returns, it returns the empty
    object, so no login ever has a pending review request. *)
Theorem getReviewRequestsPerUser_always_empty :
  forall (env : Env) (o : string),
    getReviewRequestsPerUser env o
    = obind (getPullRequestByOwner env o) (fun _ => Return ∅) /\
    (forall m, getReviewRequestsPerUser env o = Return m -> m = ∅).
Proof.
  intros env o.
  assert (getReviewRequestsPerUser env o
          = obind (getPullRequestByOwner env o) (fun _ => Return ∅)) as E.
  { unfold getReviewRequestsPerUser.
    rewrite getPullRequestByOwner_always_empty.
    destruct (getOctokit env) as [octokit|e]; cbn [obind]; [|reflexivity].
    destruct (repos_listForOrg octokit o) as [repos|e]; cbn [obind];
      [|reflexivity].
    now destruct (concat_pulls octokit o repos). }
  split; [exact E|]. intros m. rewrite E.
  destruct (getPullRequestByOwner env o); cbn [obind]; congruence.
Qed.

Lemma getReviewRequestsPerUser_always_empty_witness :
  getReviewRequestsPerUser acme_env "acme" = Return ∅.
Proof.
  pose proof (proj2 (getReviewRequestsPerUser_always_empty acme_env "acme"))
    as H.
  destruct (getReviewRequestsPerUser acme_env "acme") as [m|e] eqn:E.
  - now rewrite (H m eq_refl).
  - vm_compute in E. discriminate E.
Defined.

(** X12. [getReviewBuddy] answers with exactly the listed members, in
    order: a member whose profile lookup fails is kept as listed, one whose
    lookup succeeds gets the profile's name and keeps its login.  It
    rejects only for a missing token or a failed member listing. *)
Theorem getReviewBuddy_keeps_members :
  forall (env : Env) (api : OrgApi) (o : string) (members : list User),
    getOctokit env = Return (rest env) ->
    orgs_listMembers api o = Return members ->
    exists buddies,
      getReviewBuddy env api o = Return buddies /\
      map login buddies = map login members /\
      Forall2 (fun member buddy =>
                 match users_getByUsername api (login member) with
                 | Return userDetails => name buddy = name userDetails
                 | Throw _ => buddy = member
                 end) members buddies.
Proof.
  intros env api o members Htok Hlist.
  exists (map (withDetails api) members).
  unfold getReviewBuddy. rewrite Htok, Hlist. cbn [obind].
  split; [reflexivity|]. split.
  - rewrite map_map. apply map_ext. intros m. unfold withDetails.
    now destruct (users_getByUsername api (login m)).
  - clear Hlist. induction members as [|m ms IH]; [constructor|].
    cbn [map]. constructor; [|exact IH].
    unfold withDetails. now destruct (users_getByUsername api (login m)).
Qed.

Lemma getReviewBuddy_keeps_members_witness :
  exists buddies,
    getReviewBuddy acme_env acme_org "acme" = Return buddies /\
    map login buddies = ["alice"%string; "bob"%string].
Proof.
  destruct (getReviewBuddy_keeps_members acme_env acme_org "acme"
              [mkUser "alice" None; bob] eq_refl eq_refl)
    as (buddies & Hrun & Hlogins & _).
  exists buddies. split; [exact Hrun | exact Hlogins].
Defined.

(** ** How the handlers start *)

(** X13. A [prUrl] without a github.com pull-request URL never reaches the
    API: whatever the environment (even without a token) [find-pr-buddy]
    answers with the invalid-URL error, and so do the prompts, except that
    they ask for a URL when [prUrl] is empty. *)
Theorem handlers_reject_invalid_url :
  forall (env : Env) (prUrl : string),
    ~ contains_pr_url prUrl ->
    find_pr_buddy_front env prUrl = Return InvalidUrlResult /\
    prompt_front env prUrl
    = Return (if (prUrl =? "")%string then AskForUrl else InvalidUrlResult).
Proof.
  intros env prUrl Hno. apply parsePullRequestUrl_None in Hno.
  unfold prompt_front, truthy, find_pr_buddy_front. rewrite Hno.
  split; [reflexivity|]. now destruct (prUrl =? "")%string.
Qed.

Lemma handlers_reject_invalid_url_witness :
  find_pr_buddy_front (mkEnv None acme (fun _ => 0) (fun _ => 0))
                      "https://github.com/acme/widgets/issues/42"
  = Return InvalidUrlResult.
Proof.
  refine (proj1 (handlers_reject_invalid_url _ _ _)).
  apply parsePullRequestUrl_None. vm_compute. reflexivity.
Defined.

(** ** The read-through accessors: hits, misses and failures *)

Ltac cached_hit H Hage :=
  unfold fetchPullRequests, fetchReviews, fetchFiles, cached, bind, cacheGet;
  cbn [view update pullRequestsCacheRef reviewsCacheRef filesCacheRef];
  rewrite H; rewrite (cache_get_fresh _ _ _ _ H Hage); reflexivity.

(** A fresh entry is returned without a look at the API. *)
Lemma fetchPullRequests_hit env octokit o r st e :
  Cache.cache (pullRequestsCache st) !! getPRCacheKey o r = Some e ->
  Date_now env (clock st) - Cache.timestamp e
    <= Cache.ttl (pullRequestsCache st) ->
  fetchPullRequests env octokit o r st = (Return (Cache.data e), tick st).
Proof. intros H Hage. cached_hit H Hage. Qed.

Lemma fetchReviews_hit env octokit o r n st e :
  Cache.cache (reviewsCache st) !! getReviewsCacheKey o r (Num n) = Some e ->
  Date_now env (clock st) - Cache.timestamp e <= Cache.ttl (reviewsCache st) ->
  fetchReviews env octokit o r n st = (Return (Cache.data e), tick st).
Proof. intros H Hage. cached_hit H Hage. Qed.

Lemma fetchFiles_hit env octokit o r n st e :
  Cache.cache (filesCache st) !! getFilesCacheKey o r n = Some e ->
  Date_now env (clock st) - Cache.timestamp e <= Cache.ttl (filesCache st) ->
  fetchFiles env octokit o r n st = (Return (Cache.data e), tick st).
Proof. intros H Hage. cached_hit H Hage. Qed.

(** X14. Read-through: once [fetchReviews] (or [fetchFiles], or the cached
    pull-request listing) has returned a value, that value sits in the
    cache under the key, and until it is older than the ttl the next call
    returns it whatever the API would answer by then, even a failure. *)
Theorem fetched_then_served_from_cache :
  forall (env : Env) (octokit : Octokit) (o r : string) (n : N) (m : number)
         (st st1 : State),
    (forall v,
        fetchReviews env octokit o r n st = (Return v, st1) ->
        exists e,
          (Cache.cache (reviewsCache st1) !! getReviewsCacheKey o r (Num n)
           = Some e /\ Cache.data e = v) /\
          forall octokit',
            Date_now env (clock st1) - Cache.timestamp e
              <= Cache.ttl (reviewsCache st1) ->
            fetchReviews env octokit' o r n st1 = (Return v, tick st1)) /\
    (forall v,
        fetchFiles env octokit o r m st = (Return v, st1) ->
        exists e,
          (Cache.cache (filesCache st1) !! getFilesCacheKey o r m = Some e
           /\ Cache.data e = v) /\
          forall octokit',
            Date_now env (clock st1) - Cache.timestamp e
              <= Cache.ttl (filesCache st1) ->
            fetchFiles env octokit' o r m st1 = (Return v, tick st1)) /\
    (forall v,
        fetchPullRequests env octokit o r st = (Return v, st1) ->
        exists e,
          (Cache.cache (pullRequestsCache st1) !! getPRCacheKey o r = Some e
           /\ Cache.data e = v) /\
          forall octokit',
            Date_now env (clock st1) - Cache.timestamp e
              <= Cache.ttl (pullRequestsCache st1) ->
            fetchPullRequests env octokit' o r st1 = (Return v, tick st1)).
Proof.
  intros env octokit o r n m st st1.
  split; [|split]; intros v.
  - unfold fetchReviews. cached_cases E.
    + destruct (pulls_listReviews octokit o r n) as [v'|e']; cbn;
        intros [= <- <-].
      eexists. split; [split; [cbn; apply lookup_insert_eq | reflexivity]|].
      intros octokit' Hage.
      match type of Hage with
      | context [Cache.timestamp ?e0] =>
          apply (fetchReviews_hit env octokit' o r n _ e0);
            [cbn; apply lookup_insert_eq | exact Hage]
      end.
    + intros [= <- <-].
      exists e. split; [split; [exact E | reflexivity]|].
      intros octokit' Hage.
      apply (fetchReviews_hit env octokit' o r n _ e); [exact E | exact Hage].
    + destruct (pulls_listReviews octokit o r n) as [v'|e']; cbn;
        intros [= <- <-].
      eexists. split; [split; [cbn; apply lookup_insert_eq | reflexivity]|].
      intros octokit' Hage.
      match type of Hage with
      | context [Cache.timestamp ?e0] =>
          apply (fetchReviews_hit env octokit' o r n _ e0);
            [cbn; apply lookup_insert_eq | exact Hage]
      end.
  - unfold fetchFiles. cached_cases E.
    + destruct (pulls_listFiles octokit o r m) as [v'|e']; cbn;
        intros [= <- <-].
      eexists. split; [split; [cbn; apply lookup_insert_eq | reflexivity]|].
      intros octokit' Hage.
      match type of Hage with
      | context [Cache.timestamp ?e0] =>
          apply (fetchFiles_hit env octokit' o r m _ e0);
            [cbn; apply lookup_insert_eq | exact Hage]
      end.
    + intros [= <- <-].
      exists e. split; [split; [exact E | reflexivity]|].
      intros octokit' Hage.
      apply (fetchFiles_hit env octokit' o r m _ e); [exact E | exact Hage].
    + destruct (pulls_listFiles octokit o r m) as [v'|e']; cbn;
        intros [= <- <-].
      eexists. split; [split; [cbn; apply lookup_insert_eq | reflexivity]|].
      intros octokit' Hage.
      match type of Hage with
      | context [Cache.timestamp ?e0] =>
          apply (fetchFiles_hit env octokit' o r m _ e0);
            [cbn; apply lookup_insert_eq | exact Hage]
      end.
  - unfold fetchPullRequests. cached_cases E.
    + destruct (pulls_list octokit o r AllByUpdatedDesc100) as [v'|e']; cbn;
        intros [= <- <-].
      eexists. split; [split; [cbn; apply lookup_insert_eq | reflexivity]|].
      intros octokit' Hage.
      match type of Hage with
      | context [Cache.timestamp ?e0] =>
          apply (fetchPullRequests_hit env octokit' o r _ e0);
            [cbn; apply lookup_insert_eq | exact Hage]
      end.
    + intros [= <- <-].
      exists e. split; [split; [exact E | reflexivity]|].
      intros octokit' Hage.
      apply (fetchPullRequests_hit env octokit' o r _ e); [exact E | exact Hage].
    + destruct (pulls_list octokit o r AllByUpdatedDesc100) as [v'|e']; cbn;
        intros [= <- <-].
      eexists. split; [split; [cbn; apply lookup_insert_eq | reflexivity]|].
      intros octokit' Hage.
      match type of Hage with
      | context [Cache.timestamp ?e0] =>
          apply (fetchPullRequests_hit env octokit' o r _ e0);
            [cbn; apply lookup_insert_eq | exact Hage]
      end.
Qed.

Lemma fetched_then_served_from_cache_witness :
  let st1 := snd (fetchReviews overlap_env overlap_repo "acme" "widgets" 2
                    initial_state) in
  fetchReviews overlap_env acme "acme" "widgets" 2 st1
  = (Return (overlap_reviews 2), tick st1).
Proof.
  intros st1.
  destruct (proj1 (fetched_then_served_from_cache overlap_env overlap_repo
                     "acme" "widgets" 2 (Num 2) initial_state st1)
                  (overlap_reviews 2) eq_refl)
    as (e & [Hlookup Hdata] & Hserve).
  apply Hserve.
  vm_compute in Hlookup. injection Hlookup as <-. vm_compute. discriminate.
Defined.

(** X15. Failures are not cached.  When a read-through accessor rejects,
    it was the API call that failed with that error, and no entry sits
    under the key afterwards, so the next call asks the API again. *)
Theorem failed_fetch_caches_nothing :
  forall (env : Env) (octokit : Octokit) (o r : string) (n : N) (m : number)
         (st st1 : State) (e : Error),
    (fetchReviews env octokit o r n st = (Throw e, st1) ->
     pulls_listReviews octokit o r n = Throw e /\
     Cache.cache (reviewsCache st1) !! getReviewsCacheKey o r (Num n)
       = None) /\
    (fetchFiles env octokit o r m st = (Throw e, st1) ->
     pulls_listFiles octokit o r m = Throw e /\
     Cache.cache (filesCache st1) !! getFilesCacheKey o r m = None) /\
    (fetchPullRequests env octokit o r st = (Throw e, st1) ->
     pulls_list octokit o r AllByUpdatedDesc100 = Throw e /\
     Cache.cache (pullRequestsCache st1) !! getPRCacheKey o r = None).
Proof.
  intros env octokit o r n m st st1 e. split; [|split].
  - unfold fetchReviews. cached_cases E.
    + destruct (pulls_listReviews octokit o r n) as [v'|e']; cbn;
        intros [= <- <-]; cbn.
      split; [reflexivity | apply lookup_delete_eq].
    + discriminate.
    + destruct (pulls_listReviews octokit o r n) as [v'|e']; cbn;
        intros [= <- <-]. auto.
  - unfold fetchFiles. cached_cases E.
    + destruct (pulls_listFiles octokit o r m) as [v'|e']; cbn;
        intros [= <- <-]; cbn.
      split; [reflexivity | apply lookup_delete_eq].
    + discriminate.
    + destruct (pulls_listFiles octokit o r m) as [v'|e']; cbn;
        intros [= <- <-]. auto.
  - unfold fetchPullRequests. cached_cases E.
    + destruct (pulls_list octokit o r AllByUpdatedDesc100) as [v'|e']; cbn;
        intros [= <- <-]; cbn.
      split; [reflexivity | apply lookup_delete_eq].
    + discriminate.
    + destruct (pulls_list octokit o r AllByUpdatedDesc100) as [v'|e']; cbn;
        intros [= <- <-]. auto.
Qed.

Lemma failed_fetch_caches_nothing_witness :
  pulls_listFiles acme "acme" "widgets" (Num 7) = Throw NotFound /\
  Cache.cache (filesCache initial_state)
    !! getFilesCacheKey "acme" "widgets" (Num 7) = None.
Proof.
  refine (proj1 (proj2 (failed_fetch_caches_nothing acme_env acme
                          "acme" "widgets" 7 (Num 7) initial_state
                          initial_state NotFound)) _).
  reflexivity.
Defined.

(** ** [calculateRelatedFileExperience]: bounds and empty cases *)

Lemma filter_none {A} (f : A -> bool) (l : list A) :
  (forall x, In x l -> f x = false) -> List.filter f l = [].
Proof.
  induction l as [|x l IH]; intros H; [reflexivity|].
  cbn. rewrite (H x (or_introl eq_refl)). apply IH.
  intros y Hy. apply H. now right.
Qed.

(** X16. With caches that hold the API's answers, the related-file count
    is at most the length of the fetched pull-request list, and it is 0
    when the target pull request changes no file and when the reviewer
    has reviewed none of the listed pull requests. *)
Theorem calculateRelatedFileExperience_bounds :
  forall (env : Env) (o r R : string) (target : number)
         (reviewsOf : N -> list Review) (filesOf : number -> list File)
         (prs : list PullRequest) (st : State),
    getOctokit env = Return (rest env) ->
    coherent (rest env) o r st ->
    pulls_listFiles (rest env) o r target = Return (filesOf target) ->
    pulls_list (rest env) o r AllByUpdatedDesc100 = Return prs ->
    (forall p, In p prs -> answers_for env o r R reviewsOf filesOf p) ->
    exists k st',
      calculateRelatedFileExperience env o r target R st = (Return k, st') /\
      (k <= List.length prs)%nat /\
      (filesOf target = [] -> k = 0%nat) /\
      ((forall p, In p prs -> ~ reviewed_pr reviewsOf R p) -> k = 0%nat).
Proof.
  intros env o r R target reviewsOf filesOf prs st Hoct Hst Ht Hl Hprs.
  destruct (calculateRelatedFileExperience_spec env o r R target
              reviewsOf filesOf prs st Hoct Hst Ht Hl Hprs)
    as (st' & Hrun & _).
  eexists _, st'. split; [exact Hrun|]. split; [|split].
  - apply filter_length_le.
  - intros Hnone. rewrite filter_none; [reflexivity|].
    intros p _. unfold related_to. rewrite Hnone.
    destruct (existsb (reviewed_by R) (reviewsOf (pr_number p))); cbn;
      [|reflexivity].
    now induction (filesOf (Num (pr_number p))).
  - intros Hnone. rewrite filter_none; [reflexivity|].
    intros p Hp.
    destruct (related_to reviewsOf filesOf R target p) eqn:E; [|reflexivity].
    apply related_to_spec in E as [Hrev _]. now destruct (Hnone p Hp).
Qed.

Lemma calculateRelatedFileExperience_bounds_witness :
  exists k st',
    calculateRelatedFileExperience overlap_env "acme" "widgets" (Num 9)
      "carol" initial_state = (Return k, st') /\
    (k <= 3)%nat /\ (overlap_files (Num 9) = [] -> k = 0%nat).
Proof.
  destruct (calculateRelatedFileExperience_bounds overlap_env
              "acme" "widgets" "carol" (Num 9)
              overlap_reviews overlap_files [prA; prB; prC] initial_state)
    as (k & st' & Hrun & Hle & Hnofiles & _).
  - reflexivity.
  - apply coherent_initial.
  - reflexivity.
  - reflexivity.
  - intros p _. split; reflexivity.
  - exists k, st'. auto.
Defined.

(** ** [getReviewHistory]: the review list, the comment count, the last
    review *)

Section ReviewHistoryList.
Variables (env : Env) (o r R : string) (since : Z).
Variable reviewsOf : N -> list Review.
Variable commentsOf : N -> N -> list ApiComment.

Lemma getReviewHistory_review_fold p rs a st :
  (forall review, In review rs ->
     pulls_listReviewComments (rest env) o r (pr_number p) (review_id review)
     = Return (commentsOf (pr_number p) (review_id review))) ->
  for_of rs (getReviewHistory_review env (rest env) o r p) a st
  = (Return (fold_left (accumulate env commentsOf) (map (pair p) rs) a), st).
Proof.
  revert a. induction rs as [|review rs IH]; intros a Hcs; [reflexivity|].
  cbn [for_of map fold_left]. unfold bind at 1.
  unfold getReviewHistory_review at 1. unfold bind, await, ret.
  rewrite (Hcs review (or_introl eq_refl)).
  apply IH. intros rv Hrv. apply Hcs. now right.
Qed.

Lemma getReviewHistory_pr_fold prs a st :
  coherent (rest env) o r st ->
  (forall p, In p prs ->
     history_comments_for env o r R since reviewsOf commentsOf p) ->
  exists st',
    for_of prs (getReviewHistory_pr env (rest env) o r R since) a st
    = (Return (fold_left (accumulate env commentsOf)
                 (matched_reviews env reviewsOf R since prs) a), st') /\
    coherent (rest env) o r st'.
Proof.
  revert a st. induction prs as [|p prs IH]; intros a st Hst Hprs.
  - exists st. split; [reflexivity | exact Hst].
  - cbn [for_of]. unfold bind at 1. unfold getReviewHistory_pr at 1.
    unfold matched_reviews in *. cbn [List.filter].
    destruct (Z.ltb_spec (Date_getTime env (created_at p)) since)
      as [Hold|Hnew]; cbn [negb].
    + unfold ret at 1. apply IH; [exact Hst|].
      intros q Hq. apply Hprs. now right.
    + destruct (Hprs p (or_introl eq_refl) Hnew) as [Hrev Hcs].
      unfold bind at 1.
      destruct (fetchReviews_coherent env _ _ _ _ _ _ Hst Hrev)
        as (st1 & -> & Hst1).
      rewrite getReviewHistory_review_fold.
      2:{ intros review Hin. apply filter_In in Hin as [Hin Hby]. auto. }
      cbn [flat_map]. rewrite fold_left_app.
      apply IH; [exact Hst1|]. intros q Hq. apply Hprs. now right.
Qed.

Lemma getReviewHistory_fold since_opt prs st :
  since_of env since_opt st = since ->
  getOctokit env = Return (rest env) ->
  coherent (rest env) o r st ->
  pulls_list (rest env) o r AllByUpdatedDesc100 = Return prs ->
  (forall p, In p prs ->
     history_comments_for env o r R since reviewsOf commentsOf p) ->
  let a := fold_left (accumulate env commentsOf)
             (matched_reviews env reviewsOf R since prs) acc_init in
  exists h st',
    getReviewHistory env o r R since_opt st = (Return h, st') /\
    reviewer h = mkUser R None /\
    reviews h = acc_reviews a /\
    totalReviews (stats h) = List.length (acc_reviews a) /\
    totalComments (stats h) = acc_totalComments a /\
    lastReviewAt (stats h) = acc_lastReviewAt a /\
    relatedFileChanges (stats h) = 0%nat.
Proof.
  intros Hsince Hoct Hst Hlist Hprs a.
  unfold getReviewHistory.
  assert (exists st0,
             match since_opt with
             | Some d => ret d
             | None => fun st =>
                 (Return (Date_now env (clock st) - 30 * 24 * 60 * 60 * 1000),
                  tick st)
             end st = (Return since, st0) /\ coherent (rest env) o r st0)
    as (st0 & Hs0 & Hst0).
  { destruct since_opt as [d|]; simpl in Hsince; subst since.
    - exists st. split; [reflexivity | exact Hst].
    - exists (tick st). split; [reflexivity | exact Hst]. }
  unfold bind at 1. rewrite Hs0.
  unfold bind at 1. unfold await at 1. rewrite Hoct.
  unfold bind at 1.
  destruct (fetchPullRequests_coherent env _ _ _ _ _ Hst0 Hlist)
    as (st1 & -> & Hst1).
  unfold bind at 1.
  destruct (getReviewHistory_pr_fold prs acc_init st1 Hst1 Hprs)
    as (st' & -> & _).
  eexists _, st'. split; [reflexivity|]. cbn. fold a. repeat split.
Qed.

End ReviewHistoryList.

Lemma accumulate_reviews env commentsOf matched a :
  acc_reviews (fold_left (accumulate env commentsOf) matched a)
  = acc_reviews a ++ map (entry_of commentsOf) matched.
Proof.
  revert a. induction matched as [|m ms IH]; intros a; cbn [fold_left map].
  - now rewrite List.app_nil_r.
  - rewrite IH. cbn [accumulate acc_reviews]. now rewrite <- List.app_assoc.
Qed.

Lemma accumulate_totalComments env commentsOf matched a :
  acc_totalComments (fold_left (accumulate env commentsOf) matched a)
  = (acc_totalComments a
     + List.length (flat_map comments (map (entry_of commentsOf) matched)))%nat.
Proof.
  revert a. induction matched as [|m ms IH]; intros a;
    cbn [fold_left map flat_map].
  - cbn. lia.
  - rewrite IH. cbn [accumulate acc_totalComments].
    rewrite length_app. lia.
Qed.

(** X17. With caches that hold the API's answers, the history's [reviews]
    are exactly the reviewer's reviews on the pull requests not created
    before the cut-off, in list order, one entry each with the pull
    request's number, the submission time (or the empty string) and the
    review's comments; so no entry belongs to a pull request older than
    the cut-off.  [totalComments] is the number of comments in those
    entries, [relatedFileChanges] is 0 and the reviewer's name is [null]. *)
Theorem getReviewHistory_reviews :
  forall (env : Env) (o r R : string) (since_opt : option Z)
         (reviewsOf : N -> list Review)
         (commentsOf : N -> N -> list ApiComment)
         (prs : list PullRequest) (st : State),
    getOctokit env = Return (rest env) ->
    coherent (rest env) o r st ->
    pulls_list (rest env) o r AllByUpdatedDesc100 = Return prs ->
    (forall p, In p prs ->
       history_comments_for env o r R (since_of env since_opt st)
                            reviewsOf commentsOf p) ->
    let matched :=
      matched_reviews env reviewsOf R (since_of env since_opt st) prs in
    exists h st',
      getReviewHistory env o r R since_opt st = (Return h, st') /\
      reviews h = map (entry_of commentsOf) matched /\
      (forall entry, In entry (reviews h) ->
         exists p, In p prs /\ entry_prNumber entry = pr_number p /\
                   since_of env since_opt st
                     <= Date_getTime env (created_at p)) /\
      totalComments (stats h)
        = List.length (flat_map comments (reviews h)) /\
      relatedFileChanges (stats h) = 0%nat /\
      reviewer h = mkUser R None.
Proof.
  intros env o r R since_opt reviewsOf commentsOf prs st Hoct Hst Hl Hprs
         matched.
  destruct (getReviewHistory_fold env o r R (since_of env since_opt st)
              reviewsOf commentsOf since_opt prs st eq_refl Hoct Hst Hl Hprs)
    as (h & st' & Hrun & Hrev & Hreviews & _ & Hcomments & _ & Hrel).
  fold matched in Hreviews, Hcomments.
  rewrite accumulate_reviews in Hreviews. cbn [acc_init acc_reviews app] in Hreviews.
  rewrite accumulate_totalComments in Hcomments.
  cbn [acc_init acc_totalComments Nat.add] in Hcomments.
  exists h, st'. split; [exact Hrun|]. split; [exact Hreviews|].
  split; [|split; [|split]]; auto.
  - intros entry Hin. rewrite Hreviews in Hin.
    apply in_map_iff in Hin as ([p review] & <- & Hin).
    unfold matched, matched_reviews in Hin.
    apply in_flat_map in Hin as (q & Hq & Hin).
    apply in_map_iff in Hin as (review' & [= <- <-] & _).
    apply filter_In in Hq as [Hq Hnew].
    exists q. split; [exact Hq|]. split; [reflexivity|].
    apply negb_true_iff in Hnew. now apply Z.ltb_ge in Hnew.
  - now rewrite Hreviews.
Qed.

Lemma getReviewHistory_reviews_witness :
  exists h st',
    getReviewHistory overlap_env "acme" "widgets" "carol" (Some 1)
                     initial_state = (Return h, st') /\
    reviews h = [mkReviewEntry 2 "2025-03-02T00:01:30Z" []].
Proof.
  destruct (getReviewHistory_reviews overlap_env "acme" "widgets" "carol"
              (Some 1) overlap_reviews (fun _ _ => [])
              [prA; prB; prC] initial_state)
    as (h & st' & Hrun & Hreviews & _).
  - reflexivity.
  - apply coherent_initial.
  - reflexivity.
  - intros p _ _. split; reflexivity.
  - exists h, st'. split; [exact Hrun | exact Hreviews].
Defined.

(** The order [>] compares timestamps by: strings, character by
    character. *)
Lemma leb_refl s : String.leb s s = true.
Proof. apply Is_true_true. exact (reflexivity (R := String.le) s). Qed.

Lemma leb_empty s : String.leb "" s = true.
Proof. now destruct s. Qed.

Lemma ltb_leb a b : String.ltb a b = true -> String.leb a b = true.
Proof.
  unfold String.ltb, String.leb.
  destruct (String.compare a b); intros H; (reflexivity || discriminate H).
Qed.

Lemma not_ltb_leb a b : String.ltb a b = false -> String.leb b a = true.
Proof.
  unfold String.ltb, String.leb. rewrite (String.compare_antisym a b).
  destruct (String.compare b a); cbn; intros H;
    (reflexivity || discriminate H).
Qed.

Lemma leb_trans a b c :
  String.leb a b = true -> String.leb b c = true -> String.leb a c = true.
Proof.
  intros H1 H2. apply Is_true_true.
  apply Is_true_true in H1, H2.
  exact (transitivity (R := String.le) H1 H2).
Qed.

(** One update of [lastReviewAt]: it stays or becomes the review's
    submission time, and ends up no smaller than either. *)
Lemma updateLastReviewAt_step review last :
  (updateLastReviewAt review last = last \/
   submitted_at review = Some (updateLastReviewAt review last)) /\
  (forall s, submitted_at review = Some s ->
             String.leb s (updateLastReviewAt review last) = true) /\
  String.leb last (updateLastReviewAt review last) = true.
Proof.
  unfold updateLastReviewAt, truthy.
  destruct (submitted_at review) as [s|].
  - destruct (String.eqb_spec last "") as [->|Hlast]; cbn [negb orb].
    + split; [now right|]. split; [|apply leb_empty].
      intros s' [= <-]. apply leb_refl.
    + destruct (String.eqb_spec s "") as [->|Hs]; cbn [negb andb].
      * split; [now left|]. split; [|apply leb_refl].
        intros s' [= <-]. apply leb_empty.
      * destruct (String.ltb last s) eqn:Hlt.
        -- split; [now right|]. split; [|now apply ltb_leb].
           intros s' [= <-]. apply leb_refl.
        -- split; [now left|]. split; [|apply leb_refl].
           intros s' [= <-]. now apply not_ltb_leb.
  - destruct (negb _ || false); (split; [now left|]);
      (split; [discriminate | apply leb_refl]).
Qed.

Lemma accumulate_lastReviewAt env commentsOf matched a :
  let last := acc_lastReviewAt
                (fold_left (accumulate env commentsOf) matched a) in
  (last = acc_lastReviewAt a \/ In last (submitted_times matched)) /\
  (forall s, In s (submitted_times matched) -> String.leb s last = true) /\
  String.leb (acc_lastReviewAt a) last = true.
Proof.
  revert a. induction matched as [|m ms IH]; intros a last.
  - cbn in *. split; [now left|]. split; [tauto | apply leb_refl].
  - subst last. cbn [fold_left].
    destruct (IH (accumulate env commentsOf a m)) as (Hin & Hall & Hmono).
    cbn [accumulate acc_lastReviewAt] in Hin, Hmono.
    destruct (updateLastReviewAt_step (snd m) (acc_lastReviewAt a))
      as (Hstep & Hs & Hle).
    unfold submitted_times in *. cbn [flat_map].
    split; [|split].
    + destruct Hin as [Hin|Hin].
      * rewrite Hin. destruct Hstep as [->|Hstep]; [now left|].
        right. apply in_or_app. left. rewrite Hstep. now left.
      * right. apply in_or_app. now right.
    + intros s Hin'. apply in_app_or in Hin' as [Hin'|Hin'].
      * destruct (submitted_at (snd m)) as [s0|]; [|contradiction].
        destruct Hin' as [<-|[]].
        eapply leb_trans; [apply (Hs s0 eq_refl) | exact Hmono].
      * now apply Hall.
    + eapply leb_trans; [exact Hle | exact Hmono].
Qed.

(** X18. [lastReviewAt] is the greatest submission time of the matched
    reviews in the order of strings: it is the empty string or one of their
    submission times, and none of their submission times is greater. *)
Theorem getReviewHistory_lastReviewAt :
  forall (env : Env) (o r R : string) (since_opt : option Z)
         (reviewsOf : N -> list Review)
         (commentsOf : N -> N -> list ApiComment)
         (prs : list PullRequest) (st : State),
    getOctokit env = Return (rest env) ->
    coherent (rest env) o r st ->
    pulls_list (rest env) o r AllByUpdatedDesc100 = Return prs ->
    (forall p, In p prs ->
       history_comments_for env o r R (since_of env since_opt st)
                            reviewsOf commentsOf p) ->
    let matched :=
      matched_reviews env reviewsOf R (since_of env since_opt st) prs in
    exists h st',
      getReviewHistory env o r R since_opt st = (Return h, st') /\
      (lastReviewAt (stats h) = ""%string \/
       In (lastReviewAt (stats h)) (submitted_times matched)) /\
      (forall s, In s (submitted_times matched) ->
                 String.leb s (lastReviewAt (stats h)) = true).
Proof.
  intros env o r R since_opt reviewsOf commentsOf prs st Hoct Hst Hl Hprs
         matched.
  destruct (getReviewHistory_fold env o r R (since_of env since_opt st)
              reviewsOf commentsOf since_opt prs st eq_refl Hoct Hst Hl Hprs)
    as (h & st' & Hrun & _ & _ & _ & _ & Hlast & _).
  fold matched in Hlast.
  destruct (accumulate_lastReviewAt env commentsOf matched acc_init)
    as (Hin & Hall & _).
  exists h, st'. split; [exact Hrun|]. rewrite Hlast. split; assumption.
Qed.

Lemma getReviewHistory_lastReviewAt_witness :
  exists h st',
    getReviewHistory overlap_env "acme" "widgets" "carol" (Some 1)
                     initial_state = (Return h, st') /\
    String.leb "2025-03-02T00:01:30Z" (lastReviewAt (stats h)) = true.
Proof.
  destruct (getReviewHistory_lastReviewAt overlap_env "acme" "widgets"
              "carol" (Some 1) overlap_reviews (fun _ _ => [])
              [prA; prB; prC] initial_state)
    as (h & st' & Hrun & _ & Hall).
  - reflexivity.
  - apply coherent_initial.
  - reflexivity.
  - intros p _ _. split; reflexivity.
  - exists h, st'. split; [exact Hrun|]. apply Hall. left. reflexivity.
Defined.

(** ** [find-pr-buddy]: candidates, scores, ranking *)

(** X19. The filter only ever drops a candidate whose login is the
    author's, and only if the author is among the requested reviewers: when
    the author is not a requested reviewer the filter keeps all buddies, and
    [reviewerDetails] has one entry per buddy, in order, under the buddy's
    login. *)
Theorem buddy_filter_keeps_all :
  forall (prDetails : PullRequestDetails) (buddies : list User)
         (reviewStates : gmap string nat)
         (history : string -> ReviewHistory) (related : string -> nat),
    (forall b, In b buddies ->
               login b <> login (user (pr prDetails)) ->
               In b (List.filter (keep_buddy prDetails) buddies)) /\
    ((forall rv, In rv (reviewers prDetails) ->
                 login rv <> login (user (pr prDetails))) ->
     List.filter (keep_buddy prDetails) buddies = buddies /\
     map rd_login
         (reviewerDetails prDetails buddies reviewStates history related)
     = map login buddies).
Proof.
  intros prDetails buddies reviewStates history related. split.
  - intros b Hb Hne. apply filter_In. split; [exact Hb|].
    destruct (keep_buddy prDetails b) eqn:E; [reflexivity|].
    apply keep_buddy_false in E as [_ E]. contradiction.
  - intros Hauthor.
    assert (List.filter (keep_buddy prDetails) buddies = buddies) as E.
    { induction buddies as [|b bs IH]; [reflexivity|]. cbn [List.filter].
      destruct (keep_buddy prDetails b) eqn:Eb; [now rewrite IH|].
      apply keep_buddy_false in Eb as [(rv & Hin & Hrv) Eb].
      destruct (Hauthor rv Hin). congruence. }
    split; [exact E|]. unfold reviewerDetails. rewrite E, map_map.
    reflexivity.
Qed.

Lemma buddy_filter_keeps_all_witness :
  List.filter (keep_buddy (mkDetails pr42 [] [bob])) [alice; bob; carol]
  = [alice; bob; carol].
Proof.
  refine (proj1 (proj2 (buddy_filter_keeps_all (mkDetails pr42 [] [bob])
                          [alice; bob; carol] ∅ no_history (fun _ => 0%nat))
                       _)).
  intros rv [<-|[]]. discriminate.
Defined.












Lemma score_increasing_in_reviews d d' p r t t' :
  has_counts d p r t -> has_counts d' p r t' -> (t < t')%nat ->
  small_count p -> small_count r -> small_count t' ->
  fltb (score (withScore d)) (score (withScore d')) = true.
Proof.
  intros Hd Hd' Hlt Hp Hr Ht'.
  assert (small_count t) as Ht by (unfold small_count in *; lia).
  assert (inject_Z (Z.of_nat t) + 1 <= inject_Z (Z.of_nat t'))%Q as Hgap.
  { change 1%Q with (inject_Z 1). rewrite <- inject_Z_plus, <- Zle_Qle. lia. }
  rewrite (score_unfold d p r t Hd), (score_unfold d' p r t' Hd').
  destruct (reviews_term_value t' Ht') as (? & c' & -> & ? & ?).
  score_terms p r t Hp Hr Ht.
  set (q := (1 / (inject_Z (Z.of_nat p) + 1))%Q) in *.
  set (R := inject_Z (Z.of_nat r)) in *.
  set (T := inject_Z (Z.of_nat t)) in *.
  set (T' := inject_Z (Z.of_nat t')) in *.
  unfold_bounds.
  score_sum a b s1 Hs1.
  score_sum s1 c s Hs. score_sum s1 c' s' Hs'.
  unfold fltb, fleb.
  assert (s < s')%Q as Hss by lra.
  apply andb_true_intro. split.
  - apply Qle_bool_iff. lra.
  - apply negb_true_iff. destruct (Qle_bool s' s) eqn:E; [|reflexivity].
    apply Qle_bool_iff in E. lra.
Qed.

(** X21. With counts of at most 100 000 the score also grows strictly
    with [totalReviews], and it is positive and at most [0.3 + 0.04 *
    relatedFileChanges + 0.006 * totalReviews] up to the rounding. *)
Theorem score_grows_with_reviews :
  (forall d d' p r t t',
      has_counts d p r t -> has_counts d' p r t' -> (t < t')%nat ->
      small_count p -> small_count r -> small_count t' ->
      fltb (score (withScore d)) (score (withScore d')) = true) /\
  (forall d p r t,
      has_counts d p r t ->
      small_count p -> small_count r -> small_count t ->
      exists s, score (withScore d) = Fin s /\
        (0 < s <= ((3 # 10) + (4 # 100) * inject_Z (Z.of_nat r)
                   + (6 # 1000) * inject_Z (Z.of_nat t))
                  * (1 + score_tolerance))%Q).
Proof.
  split; [exact score_increasing_in_reviews|].
  intros d p r t Hd Hp Hr Ht.
  destruct (score_close d p r t Hd Hp Hr Ht) as (s & Es & Hs).
  exists s. split; [exact Es|].
  destruct (load_term_value p Hp) as (Hq & _).
  destruct (related_term_value r Hr) as (HR & _).
  destruct (reviews_term_value t Ht) as (HT & _).
  cbv zeta in *. unfold score_spec in Hs.
  unfold Qdiv in Hs. change (/ 10)%Q with (1 # 10)%Q in Hs.
  change (/ 50)%Q with (1 # 50)%Q in Hs. fold (Qdiv 1 (inject_Z (Z.of_nat p) + 1)) in Hs.
  set (q := (1 / (inject_Z (Z.of_nat p) + 1))%Q) in *.
  set (R := inject_Z (Z.of_nat r)) in *. set (T := inject_Z (Z.of_nat t)) in *.
  unfold score_tolerance in *. lra.
Qed.

Lemma score_grows_with_reviews_witness :
  fltb (score (withScore (mkDetail "r" None 2 (mkStats 20 0 0 "" 5) [])))
       (score (withScore (mkDetail "r" None 2 (mkStats 21 0 0 "" 5) [])))
  = true.
Proof.
  apply (proj1 score_grows_with_reviews
               (mkDetail "r" None 2 (mkStats 20 0 0 "" 5) [])
               (mkDetail "r" None 2 (mkStats 21 0 0 "" 5) [])
               2%nat 5%nat 20%nat 21%nat).
  - repeat split.
  - repeat split.
  - lia.
  - unfold small_count. lia.
  - unfold small_count. lia.
  - unfold small_count. lia.
Defined.


Lemma rank_length (count : Z) (scored : list ScoredReviewer) :
  0 <= count ->
  List.length (rank count scored)
  = Nat.min (Z.to_nat count) (List.length scored).
Proof.
  intros Hcount. unfold rank. rewrite slice0_nonneg by exact Hcount.
  rewrite length_firstn.
  now rewrite (Permutation_length (sort_perm byScoreDesc scored)).
Qed.





Lemma In_firstn {A} (n : nat) (l : list A) (x : A) :
  In x (firstn n l) -> In x l.
Proof.
  intros H. rewrite <- (firstn_skipn n l). apply in_or_app. now left.
Qed.

(** X24. Every login the tool recommends is the login of a listed member,
    and for a count of at least 0 it recommends at most [count] of them
    and at most as many as there are members (at most 10 by default). *)
Theorem recommended_are_members :
  forall (count : option Z) (prDetails : PullRequestDetails)
         (buddies : list User) (reviewStates : gmap string nat)
         (history : string -> ReviewHistory) (related : string -> nat),
    (forall l,
        In l (recommended count prDetails buddies reviewStates history
                          related) ->
        exists b, In b buddies /\ login b = l) /\
    (0 <= default 10 count ->
     (List.length (recommended count prDetails buddies reviewStates history
                               related)
      <= Nat.min (Z.to_nat (default 10%Z count)) (List.length buddies))%nat).
Proof.
  intros count prDetails buddies reviewStates history related. split.
  - intros l Hin. unfold recommended, scoredReviewers, rank, slice0 in Hin.
    apply in_map_iff in Hin as (x & <- & Hin).
    apply In_firstn in Hin.
    apply (Permutation_in _ (sort_perm byScoreDesc _)) in Hin.
    apply in_map_iff in Hin as (d & <- & Hin).
    unfold reviewerDetails in Hin.
    apply in_map_iff in Hin as (b & <- & Hin).
    apply filter_In in Hin as [Hin _]. now exists b.
  - intros Hcount. unfold recommended, scoredReviewers.
    rewrite length_map.
    rewrite (rank_length _ _ Hcount).
    unfold reviewerDetails. rewrite !length_map.
    pose proof (filter_length_le (keep_buddy prDetails) buddies). lia.
Qed.

Lemma recommended_are_members_witness :
  (List.length (recommended None (mkDetails pr42 [] [bob]) [alice; bob] ∅
                            no_history (fun _ => 0%nat))
   <= Nat.min 10 2)%nat.
Proof.
  refine (proj2 (recommended_are_members None (mkDetails pr42 [] [bob])
                   [alice; bob] ∅ no_history (fun _ => 0%nat)) _).
  cbn. lia.
Defined.

(** ** What the two cached functions do to the caches *)

Lemma bind_preserves {A B} (P : State -> Prop) (m : M A) (f : A -> M B) st :
  P (snd (m st)) ->
  (forall a st', P st' -> P (snd (f a st'))) ->
  P (snd (bind m f st)).
Proof.
  intros Hm Hf. unfold bind. destruct (m st) as [[a|e] st']; cbn in *; auto.
Qed.

Lemma for_of_preserves {A S} (P : State -> Prop) (l : list A)
      (body : A -> S -> M S) :
  (forall x a st, P st -> P (snd (body x a st))) ->
  forall a st, P st -> P (snd (for_of l body a st)).
Proof.
  intros Hbody. induction l as [|x l IH]; intros a st Hst; [exact Hst|].
  cbn [for_of]. apply bind_preserves; [now apply Hbody|].
  intros a' st' Hst'. now apply IH.
Qed.

(** Where an entry of a cache after a read-through comes from. *)
Ltac entry_origin Hc :=
  first [ apply lookup_evict_set_inv in Hc as [[? <-]|Hc]
        | apply lookup_set_inv in Hc as [[? <-]|Hc]
        | apply lookup_delete_Some in Hc as [_ Hc]
        | idtac ].

Lemma fetchReviews_keeps_coherent env octokit o r n st :
  coherent octokit o r st ->
  coherent octokit o r (snd (fetchReviews env octokit o r n st)).
Proof.
  intros (Hp & Hr & Hf). unfold fetchReviews.
  cached_cases E;
    try (destruct (pulls_listReviews octokit o r n) as [v|e'] eqn:Hv);
    cbn; (split; [|split]); auto;
    intros n' c Hc; cbn in Hc; entry_origin Hc; eauto;
    match goal with
    | Hk : _ = getReviewsCacheKey _ _ _ |- _ =>
        apply getReviewsCacheKey_inj in Hk; now inversion Hk; subst
    end.
Qed.

Lemma fetchFiles_keeps_coherent env octokit o r n st :
  coherent octokit o r st ->
  coherent octokit o r (snd (fetchFiles env octokit o r n st)).
Proof.
  intros (Hp & Hr & Hf). unfold fetchFiles.
  cached_cases E;
    try (destruct (pulls_listFiles octokit o r n) as [v|e'] eqn:Hv);
    cbn; (split; [|split]); auto;
    intros n' c Hc; cbn in Hc; entry_origin Hc; eauto;
    match goal with
    | Hk : _ = getFilesCacheKey _ _ _ |- _ =>
        apply getFilesCacheKey_inj in Hk; now subst
    end.
Qed.

Lemma fetchPullRequests_keeps_coherent env octokit o r st :
  coherent octokit o r st ->
  coherent octokit o r (snd (fetchPullRequests env octokit o r st)).
Proof.
  intros (Hp & Hr & Hf). unfold fetchPullRequests.
  cached_cases E;
    try (destruct (pulls_list octokit o r AllByUpdatedDesc100)
           as [v|e'] eqn:Hv);
    cbn; (split; [|split]); auto;
    intros c Hc; cbn in Hc; entry_origin Hc; auto;
    try (rewrite E in Hc); rewrite ?Hv; auto; congruence.
Qed.

Lemma getOctokit_cases env :
  getOctokit env = Return (rest env) \/ getOctokit env = Throw TokenNotSet.
Proof.
  unfold getOctokit. destruct (GITHUB_TOKEN env) as [tok|]; [|now right].
  destruct (tok =? "")%string; auto.
Qed.

(** X25. The caches only ever hold the API's answers.  If they do before
    a call of [calculateRelatedFileExperience] or [getReviewHistory], they
    do after it, however the call ends: with hits, misses, evictions, or a
    rejection part-way through. *)
Theorem cached_functions_keep_coherence :
  forall (env : Env) (o r R : string) (n : number) (since : option Z)
         (st : State),
    coherent (rest env) o r st ->
    coherent (rest env) o r
             (snd (calculateRelatedFileExperience env o r n R st)) /\
    coherent (rest env) o r (snd (getReviewHistory env o r R since st)).
Proof.
  intros env o r R n since st Hst. split.
  - unfold calculateRelatedFileExperience. unfold bind at 1. unfold await.
    destruct (getOctokit_cases env) as [-> | ->]; [|exact Hst].
    apply bind_preserves; [now apply fetchFiles_keeps_coherent|].
    intros prFiles st1 Hst1.
    apply bind_preserves; [now apply fetchPullRequests_keeps_coherent|].
    intros prs st2 Hst2.
    apply for_of_preserves; [|exact Hst2].
    intros p k st3 Hst3. unfold calculateRelatedFileExperience_pr.
    apply bind_preserves; [now apply fetchReviews_keeps_coherent|].
    intros prReviews st4 Hst4.
    destruct (existsb (reviewed_by R) prReviews); [|exact Hst4].
    apply bind_preserves; [now apply fetchFiles_keeps_coherent|].
    intros reviewFiles st5 Hst5. now destruct (existsb _ reviewFiles).
  - unfold getReviewHistory.
    apply bind_preserves; [now destruct since|].
    intros since_ st0 Hst0. unfold bind at 1. unfold await.
    destruct (getOctokit_cases env) as [-> | ->]; [|exact Hst0].
    apply bind_preserves; [now apply fetchPullRequests_keeps_coherent|].
    intros prs st1 Hst1.
    apply bind_preserves; [|intros; assumption].
    apply for_of_preserves; [|exact Hst1].
    intros p a st2 Hst2. unfold getReviewHistory_pr.
    destruct (_ <? _); [exact Hst2|].
    apply bind_preserves; [now apply fetchReviews_keeps_coherent|].
    intros prReviews st3 Hst3.
    apply for_of_preserves; [|exact Hst3].
    intros review a' st4 Hst4. unfold getReviewHistory_review.
    apply bind_preserves; [exact Hst4 | intros; assumption].
Qed.

Lemma cached_functions_keep_coherence_witness :
  coherent acme "acme" "widgets"
           (snd (calculateRelatedFileExperience acme_env "acme" "widgets"
                   (Num 42) "bob" initial_state)).
Proof.
  refine (proj1 (cached_functions_keep_coherence acme_env "acme" "widgets"
                   "bob" (Num 42) None initial_state _)).
  apply coherent_initial.
Defined.

(** X26. [getReviewHistory] reads and writes the pull-request and review
    caches only: the file cache is the same after the call as before it,
    however the call ends. *)
Theorem getReviewHistory_leaves_filesCache :
  forall (env : Env) (o r R : string) (since : option Z) (st : State),
    filesCache (snd (getReviewHistory env o r R since st)) = filesCache st.
Proof.
  intros env o r R since st.
  set (P := fun st' : State => filesCache st' = filesCache st).
  change (P (snd (getReviewHistory env o r R since st))).
  assert (P st) as Hst by reflexivity.
  assert (forall T (c : CacheRef T) key fetch st',
             (forall x s, filesCache (update c x s) = filesCache s) ->
             P st' -> P (snd (cached env c key fetch st'))) as Hcached.
  { intros T c key fetch st' Hc Hst'. unfold P in *.
    assert (forall s, filesCache (tick s) = filesCache s) as Htick
      by reflexivity.
    unfold cached, bind, cacheGet, cacheSet, await, ret.
    destruct (Cache.cache (view c st') !! key) as [e|].
    - destruct (Cache.get _ key (view c st')) as [[x|] c'];
        [|destruct fetch]; cbn [snd];
        repeat (rewrite Htick || rewrite Hc); assumption.
    - destruct fetch; cbn [snd];
        repeat (rewrite Htick || rewrite Hc); assumption. }
  unfold getReviewHistory.
  apply bind_preserves; [now destruct since|].
  intros since_ st0 Hst0. unfold bind at 1. unfold await.
  destruct (getOctokit env); [|exact Hst0].
  apply bind_preserves; [now apply Hcached|].
  intros prs st1 Hst1.
  apply bind_preserves; [|intros; assumption].
  apply for_of_preserves; [|exact Hst1].
  intros p acc0 st2 Hst2. unfold getReviewHistory_pr.
  destruct (_ <? _); [exact Hst2|].
  apply bind_preserves; [now apply Hcached|].
  intros prReviews st3 Hst3.
  apply for_of_preserves; [|exact Hst3].
  intros review acc1 st4 Hst4. unfold getReviewHistory_review.
  apply bind_preserves; [exact Hst4 | intros; assumption].
Qed.
